(** * cx-webhooks: the Carerix webhooks client and its command-line parser

    A shallow embedding of [src/carerix-webhooks-client.ts] (the client class
    [CarerixWebhooksClient]) and of the command-line entry point that follows
    it in the same file ([parseArgs], [parseHeaders]), with the properties the
    specification states about them.

    Conventions of the model.
    - A JavaScript string is a [string]: a sequence of code units below 256.
    - A JavaScript number is an IEEE 754 binary64 [float]; an HTTP status code
      is an [N].
    - A JavaScript object used as a dictionary is a [gmap string _]: the
      properties stated here are about keys and values, not about the order
      in which keys are enumerated.
    - [fetch] is the only effect of the client: it is modelled by a world that
      holds the responses the network will deliver, the requests sent so far
      and the console output. *)

From Stdlib Require Import PrimFloat Ascii.
From stdpp Require Import gmap strings list fin_maps pretty.

#[local] Set Warnings "-register-all".
#[local] Open Scope string_scope.

(** ** JavaScript values *)

Module JS.

(** The values a parsed JSON document is made of, and [undefined]. A value
    produced by [JSON.parse] never contains [VUndef]. *)
Inductive value : Type :=
  | VUndef
  | VNull
  | VBool (b : bool)
  | VNum (x : float)
  | VStr (s : string)
  | VArr (l : list value)
  | VObj (m : gmap string value).

(** [Array.isArray]. *)
Definition isArray (v : value) : bool :=
  match v with VArr _ => true | _ => false end.

(** ToBoolean: [undefined], [null], [false], [0], [-0], [NaN] and the empty
    string are falsy, every other value (every object and array) is truthy. *)
Definition truthy (v : value) : bool :=
  match v with
  | VUndef | VNull => false
  | VBool b => b
  | VNum x => negb (PrimFloat.eqb x 0) && PrimFloat.eqb x x
  | VStr s => negb (String.eqb s "")
  | VArr _ | VObj _ => true
  end.

(** [v === null || v === undefined]. *)
Definition nullish (v : value) : bool :=
  match v with VUndef | VNull => true | _ => false end.

(** [a ?? b]. *)
Definition coalesce (a b : value) : value := if nullish a then b else a.

(** [v?.k] for a key [k] that is no built-in property of arrays, strings,
    numbers or booleans (the source reads [id], [_id], [webhookId], [uuid],
    [items] and [access_token] only): the own property of an object, and
    [undefined] everywhere else. *)
Definition get (v : value) (k : string) : value :=
  match v with
  | VObj m => default VUndef (m !! k)
  | _ => VUndef
  end.

(** The own enumerable properties [{...v}] copies: the entries of an object,
    the elements of an array and the characters of a string under their
    decimal indices, nothing for the other values. *)
Definition indexed (l : list value) : gmap string value :=
  list_to_map (imap (fun i x => (pretty i, x)) l).

Definition chars (s : string) : list value :=
  (fun c => VStr (String c "")) <$> String.list_ascii_of_string s.

Definition spread (v : value) : gmap string value :=
  match v with
  | VObj m => m
  | VArr l => indexed l
  | VStr s => indexed (chars s)
  | _ => ∅
  end.

End JS.

Import JS.

Infix "??" := coalesce (at level 61, left associativity).

(** ** Normalization of a webhook *)

(** [type Webhook]: a dictionary with the server's fields. *)
Abbreviation Webhook := (gmap string value).

(** [CarerixWebhooksClient.normalizeWebhook]:
    [const id = data?.id ?? data?._id ?? data?.webhookId ?? data?.uuid;
     return { id, ...data }].
    The literal first defines [id], then copies the properties of [data] over
    it: a key of [data] wins over the key defined before it. *)
Definition normalizeWebhook (data : value) : Webhook :=
  let id := get data "id" ?? get data "_id" ?? get data "webhookId" ?? get data "uuid" in
  spread data ∪ {[ "id" := id ]}.

(** The reading of "the highest-priority present field" by keys: the value of
    the first of the keys that the object has. *)
Fixpoint first_present (m : gmap string value) (ks : list string) : value :=
  match ks with
  | [] => VUndef
  | k :: ks' => match m !! k with Some v => v | None => first_present m ks' end
  end.

(** The reading by values: the value of the first of the keys whose value is
    neither [null] nor [undefined]. *)
Fixpoint first_populated (m : gmap string value) (ks : list string) : value :=
  match ks with
  | [] => VUndef
  | k :: ks' =>
      match m !! k with
      | Some v => if nullish v then first_populated m ks' else v
      | None => first_populated m ks'
      end
  end.

Definition id_fields : list string := ["id"; "_id"; "webhookId"; "uuid"].

(** What the code resolves: the object's own [id] whatever its value; without
    an [id] key the first populated one of [_id] and [webhookId]; and when
    neither is populated the value of [uuid] as it is ([null] when it is
    [null], [undefined] when the key is absent), the last operand of a chain
    of [??] being returned unexamined. *)
Definition resolved_id (m : gmap string value) : value :=
  match m !! "id" with
  | Some v => v
  | None =>
      let v := first_populated m ["_id"; "webhookId"] in
      if nullish v then default VUndef (m !! "uuid") else v
  end.

(** ** Strings *)

Module Str.

(** [s.startsWith(p)]. *)
Definition startsWith (p s : string) : bool := String.prefix p s.

(** [s.endsWith("/")], and [s] without its last code unit. *)
Fixpoint endsWithSlash (s : string) : bool :=
  match s with
  | "" => false
  | String c "" => Ascii.eqb c "/"%char
  | String _ s' => endsWithSlash s'
  end.

Fixpoint dropLast (s : string) : string :=
  match s with
  | "" => ""
  | String _ "" => ""
  | String c s' => String c (dropLast s')
  end.

(** [s.indexOf(c)] for a one-character needle; [None] is [-1]. *)
Fixpoint indexOf (c : ascii) (s : string) : option nat :=
  match s with
  | "" => None
  | String d s' => if Ascii.eqb d c then Some 0 else S <$> indexOf c s'
  end.

(** [s.slice(0, n)] and [s.slice(n)] for [0 <= n]. *)
Fixpoint sliceTo (n : nat) (s : string) : string :=
  match n, s with
  | S n', String c s' => String c (sliceTo n' s')
  | _, _ => ""
  end.

Fixpoint sliceFrom (n : nat) (s : string) : string :=
  match n, s with
  | S n', String _ s' => sliceFrom n' s'
  | _, _ => s
  end.

(** White space and line terminators of ECMAScript among the code units below
    256: TAB, LF, VT, FF, CR, SP and NBSP. *)
Definition isWhite (c : ascii) : bool :=
  let n := Ascii.N_of_ascii c in
  ((9 <=? n) && (n <=? 13) || (n =? 32) || (n =? 160))%N.

Fixpoint trimStart (s : string) : string :=
  match s with
  | String c s' => if isWhite c then trimStart s' else s
  | "" => ""
  end.

Fixpoint trimEnd (s : string) : string :=
  match s with
  | "" => ""
  | String c s' =>
      match trimEnd s' with
      | "" => if isWhite c then "" else String c ""
      | t => String c t
      end
  end.

(** [s.trim()]. *)
Definition trim (s : string) : string := trimEnd (trimStart s).

(** [hay.includes(needle)] on strings. *)
Fixpoint contains (needle hay : string) : bool :=
  String.prefix needle hay ||
  match hay with
  | "" => false
  | String _ hay' => contains needle hay'
  end.

(** The decimal numeral of a status code, as a template literal prints it. *)
Definition ofN (n : N) : string := pretty n.

End Str.

(** [encodeURIComponent] on code units below 256: the unreserved characters
    stand for themselves, every other code unit is written as the [%XX]
    escapes of its UTF-8 bytes (one byte below 128, two from 128 on). *)
Module URI.

Definition unreserved (c : ascii) : bool :=
  let n := Ascii.N_of_ascii c in
  ((65 <=? n) && (n <=? 90) || (97 <=? n) && (n <=? 122) || (48 <=? n) && (n <=? 57))%N
  || bool_decide (c ∈ String.list_ascii_of_string "-_.!~*'()").

Definition hexDigit (n : N) : ascii :=
  Ascii.ascii_of_N (if (n <? 10)%N then 48 + n else 55 + n).

Definition escape (byte : N) : string :=
  String "%"%char (String (hexDigit (byte / 16)) (String (hexDigit (byte mod 16)) "")).

Definition encodeUnit (c : ascii) : string :=
  let n := Ascii.N_of_ascii c in
  if unreserved c then String c ""
  else if (n <? 128)%N then escape n
  else escape (192 + n / 64) ++ escape (128 + n mod 64).

Fixpoint encodeURIComponent (s : string) : string :=
  match s with
  | "" => ""
  | String c s' => encodeUnit c ++ encodeURIComponent s'
  end.

End URI.

Import URI.

(** ** The network, and the monad of the client's methods *)

(** What a method throws: an [Error] built by the source with its message, the
    [SyntaxError] of [res.json()] on a body that is no JSON text, and the
    [TypeError] of a [fetch] that gets no response. *)
Inductive exn : Type :=
  | Error (message : string)
  | SyntaxError
  | TypeError.

Inductive outcome (A : Type) : Type :=
  | Returned (a : A)
  | Thrown (e : exn).
Arguments Returned {A} a.
Arguments Thrown {A} e.

(** The body handed to [fetch]: the pairs of a [URLSearchParams] in the order
    they were set, or the value given to [JSON.stringify]. *)
Inductive Body : Type :=
  | BodyForm (fields : list (string * string))
  | BodyJson (v : value).

Record Request : Type := mkRequest {
  url : string;
  method : string;
  headers : list (string * string);
  body : option Body
}.

(** A response as the source reads it: [res.status], [res.statusText], what
    [res.text()] resolves to ([None] when reading the body fails) and what
    [res.json()] resolves to ([None] when the body is no JSON text). *)
Record Response : Type := mkResponse {
  status : N;
  statusText : string;
  text : option string;
  json : option value
}.

(** [res.ok]: the status is in the range 200 to 299. *)
Definition ok (res : Response) : bool := ((200 <=? status res) && (status res <=? 299))%N.

Record World : Type := mkWorld {
  pending : list Response;
  sent : list Request;
  console : list value
}.

Definition M (A : Type) : Type := World -> outcome A * World.

#[global] Instance M_ret : MRet M := fun A a w => (Returned a, w).

#[global] Instance M_bind : MBind M := fun A B f m w =>
  match m w with
  | (Returned a, w') => f a w'
  | (Thrown e, w') => (Thrown e, w')
  end.

Definition throw {A : Type} (e : exn) : M A := fun w => (Thrown e, w).

(** [await fetch(url, init)]: the request goes out and the next pending
    response comes back; with none pending the promise is rejected. *)
Definition fetch (req : Request) : M Response := fun w =>
  match pending w with
  | [] => (Thrown TypeError, mkWorld [] (sent w ++ [req]) (console w))
  | res :: rest => (Returned res, mkWorld rest (sent w ++ [req]) (console w))
  end.

(** [await res.text().catch(() => '')]. *)
Definition textOrEmpty (res : Response) : M string := mret (default "" (text res)).

(** [await res.json()]. *)
Definition parseJson (res : Response) : M value :=
  match json res with
  | Some v => mret v
  | None => throw SyntaxError
  end.

(** [console.log(v)]. *)
Definition console_log (v : value) : M unit := fun w =>
  (Returned tt, mkWorld (pending w) (sent w) (console w ++ [v])).

(** ** The client *)

Record OAuthConfig : Type := mkOAuthConfig {
  authEndpoint : string;
  clientID : string;
  clientSecret : string;
  scopes : option string
}.

Record CarerixConfig : Type := mkCarerixConfig {
  baseUrl : string;
  applicationId : string;
  oauth : OAuthConfig
}.

Record WebhookFilter : Type := mkWebhookFilter { eventType : string }.

Record WebhookHeader : Type := mkWebhookHeader { name : string; value_ : string }.

Record CreateWebhookRequest : Type := mkCreateWebhookRequest {
  req_url : string;
  filters : option (list WebhookFilter);
  customHeaders : option (list WebhookHeader)
}.

(** The private fields of a [CarerixWebhooksClient]. *)
Record Client : Type := mkClient {
  this_baseUrl : string;
  this_applicationId : string;
  this_oauth : OAuthConfig
}.

(** [s.replace(/\/$/, '')]: without the [m] flag [$] matches at the end of the
    string only, so at most the last code unit goes. *)
Definition stripTrailingSlash (s : string) : string :=
  if Str.endsWithSlash s then Str.dropLast s else s.

(** [constructor(config)]. *)
Definition new_client (config : CarerixConfig) : Client :=
  {| this_baseUrl := stripTrailingSlash (baseUrl config);
     this_applicationId := applicationId config;
     this_oauth := oauth config |}.

(** The request of [getAccessToken]; [scope] is set when [scopes] is a
    non-empty string. *)
Definition tokenRequest (c : Client) : Request :=
  let o := this_oauth c in
  {| url := authEndpoint o;
     method := "POST";
     headers := [("Content-Type", "application/x-www-form-urlencoded")];
     body := Some (BodyForm (
       [("grant_type", "client_credentials");
        ("client_id", clientID o);
        ("client_secret", clientSecret o)]
       ++ match scopes o with
          | Some s => if truthy (VStr s) then [("scope", s)] else []
          | None => []
          end)) |}.

(** [getAccessToken]. The declared type of [access_token] is [string]; what
    is tested is its truthiness, and what is returned is the value found. *)
Definition getAccessToken (c : Client) : M value :=
  res ← fetch (tokenRequest c);
  if negb (ok res) then
    text ← textOrEmpty res;
    throw (Error ("Failed to fetch access token: " ++ Str.ofN (status res) ++ " "
                  ++ statusText res ++ " " ++ text))
  else
    data ← parseJson res;
    if negb (truthy (get data "access_token")) then
      throw (Error "No access_token in OAuth response")
    else mret (get data "access_token").

(** [appUrl(path)]. *)
Definition appUrl (c : Client) (path : string) : string :=
  this_baseUrl c ++ "/applications/" ++ this_applicationId c ++ path.

Section Operations.

(** Number::toString of the JavaScript runtime, used where a template literal
    prints a number found in a response. *)
Variable numberToString : float -> string.

(** ToString, as a template literal applies it to a value that came out of
    a JSON text, where it can fail: an object with an own [toString] entry
    (which, coming from JSON, is no function) has no primitive value, and
    converting it throws a [TypeError]; so does converting an array that
    holds such an object, since an array is converted by joining the
    conversions of its elements ([null] and [undefined] give the empty
    string there). [None] stands for the [TypeError]. *)
Fixpoint toStringThrowing (v : value) : option string :=
  match v with
  | VUndef => Some "undefined"
  | VNull => Some "null"
  | VBool b => Some (if b then "true" else "false")
  | VNum x => Some (numberToString x)
  | VStr s => Some s
  | VArr l =>
      String.concat "," <$>
        mapM (fun o : option string => o)
             (map (fun e => if nullish e then Some "" else toStringThrowing e) l)
  | VObj m => if bool_decide (is_Some (m !! "toString")) then None
              else Some "[object Object]"
  end.

(** [authHeaders]: the token is logged, then wrapped by the template literal
    [`Bearer ${token}`], which throws when the token has no string form. *)
Definition authHeaders (c : Client) : M (list (string * string)) :=
  token ← getAccessToken c;
  _ ← console_log token;
  match toStringThrowing token with
  | Some bearer => mret [("Authorization", "Bearer " ++ bearer)]
  | None => throw TypeError
  end.

(** The message of the [Error] an operation throws on a response that is not
    [ok]: [`<what> failed: ${res.status} ${res.statusText} ${text}`]. *)
Definition failureMessage (what : string) (res : Response) (text : string) : string :=
  what ++ " failed: " ++ Str.ofN (status res) ++ " " ++ statusText res ++ " " ++ text.

Definition filterValue (f : WebhookFilter) : value :=
  VObj {[ "eventType" := VStr (eventType f) ]}.

Definition headerValue (h : WebhookHeader) : value :=
  VObj {[ "name" := VStr (name h); "value" := VStr (value_ h) ]}.

(** The own properties of a [CreateWebhookRequest]; an optional field that is
    not given is left out, as [JSON.stringify] leaves it out. *)
Definition requestFields (req : CreateWebhookRequest) : gmap string value :=
  let with_filters (m : gmap string value) :=
    match filters req with
    | Some fs => <["filters" := VArr (filterValue <$> fs)]> m
    | None => m
    end in
  let with_headers (m : gmap string value) :=
    match customHeaders req with
    | Some hs => <["customHeaders" := VArr (headerValue <$> hs)]> m
    | None => m
    end in
  with_headers (with_filters {[ "url" := VStr (req_url req) ]}).

(** [createWebhook(req)]. *)
Definition createWebhook (c : Client) (req : CreateWebhookRequest) : M Webhook :=
  headers ← authHeaders c;
  res ← fetch {| url := appUrl c "/webhooks";
                 method := "POST";
                 headers := headers ++ [("Content-Type", "application/json")];
                 body := Some (BodyJson (VObj (requestFields req ∪ {[ "_kind" := VStr "Webhook" ]}))) |};
  if negb (ok res) then
    text ← textOrEmpty res;
    throw (Error (failureMessage "Create webhook" res text))
  else
    data ← parseJson res;
    mret (normalizeWebhook data).

(** The elements [listWebhooks] normalizes:
    [if (Array.isArray(data)) items = data;
     else if (Array.isArray(data?.items)) items = data.items;
     else if (data) items = [data];
     else items = []]. *)
Definition elements (v : value) : list value :=
  match v with VArr l => l | _ => [] end.

Definition listItems (data : value) : list value :=
  if isArray data then elements data
  else if isArray (get data "items") then elements (get data "items")
  else if truthy data then [data]
  else [].

(** [listWebhooks()]. *)
Definition listWebhooks (c : Client) : M (list Webhook) :=
  headers ← authHeaders c;
  res ← fetch {| url := appUrl c "/webhooks";
                 method := "GET";
                 headers := headers;
                 body := None |};
  if negb (ok res) then
    text ← textOrEmpty res;
    throw (Error (failureMessage "List webhooks" res text))
  else
    data ← parseJson res;
    mret (normalizeWebhook <$> listItems data).

(** [enableWebhook(webhookId)]. *)
Definition enableWebhook (c : Client) (webhookId : string) : M Webhook :=
  headers ← authHeaders c;
  res ← fetch {| url := appUrl c ("/webhooks/" ++ encodeURIComponent webhookId ++ "/enable");
                 method := "POST";
                 headers := headers;
                 body := None |};
  if negb (ok res) then
    text ← textOrEmpty res;
    throw (Error (failureMessage "Enable webhook" res text))
  else
    data ← parseJson res;
    mret (normalizeWebhook data).

(** [disableWebhook(webhookId)]. *)
Definition disableWebhook (c : Client) (webhookId : string) : M Webhook :=
  headers ← authHeaders c;
  res ← fetch {| url := appUrl c ("/webhooks/" ++ encodeURIComponent webhookId ++ "/disable");
                 method := "POST";
                 headers := headers;
                 body := None |};
  if negb (ok res) then
    text ← textOrEmpty res;
    throw (Error (failureMessage "Disable webhook" res text))
  else
    data ← parseJson res;
    mret (normalizeWebhook data).

(** [deleteWebhook(webhookId)]: no body is read on success. *)
Definition deleteWebhook (c : Client) (webhookId : string) : M unit :=
  headers ← authHeaders c;
  res ← fetch {| url := appUrl c ("/webhooks/" ++ encodeURIComponent webhookId);
                 method := "DELETE";
                 headers := headers;
                 body := None |};
  if negb (ok res) then
    text ← textOrEmpty res;
    throw (Error (failureMessage "Delete webhook" res text))
  else mret tt.

End Operations.

(** ** The command line *)

(** A value of the flag dictionary: [string | boolean | string[]]. *)
Inductive FlagValue : Type :=
  | FBool (b : bool)
  | FStr (s : string)
  | FArr (l : list string).

(** [type ParsedArgs]. *)
Record ParsedArgs : Type := mkParsedArgs {
  envFile : option string;
  command : option string;
  params : list string;
  flags : gmap string FlagValue
}.

(** [{ params: [], flags: {} }]: what [main] answers with the usage text. *)
Definition usage : ParsedArgs :=
  {| envFile := None; command := None; params := []; flags := ∅ |}.

(** [args.includes(t)]. *)
Definition includes (t : string) (args : list string) : bool :=
  existsb (String.eqb t) args.

(** The first loop of [parseArgs], on the tokens from index [i] on: while the
    token is [--env] and has a successor, [out.envFile] is set to the
    successor and two tokens are passed; any other token ends the loop. *)
Fixpoint globalFlags (args : list string) (envFile : option string)
  : option string * list string :=
  match args with
  | a :: v :: rest =>
      if String.eqb a "--env" then globalFlags rest (Some v) else (envFile, args)
  | _ => (envFile, args)
  end.

(** [ensureArray(k).push(v)]: the array under [k], or a new one when [k] holds
    no array, with [v] at its end. *)
Definition ensureArray (flags : gmap string FlagValue) (k : string) : list string :=
  match flags !! k with
  | Some (FArr l) => l
  | _ => []
  end.

Definition push (k v : string) (flags : gmap string FlagValue) : gmap string FlagValue :=
  <[k := FArr (ensureArray flags k ++ [v])%list]> flags.

(** [a.replace(/^--?/, '')] on a token that starts with a dash. *)
Definition stripDashes (a : string) : string :=
  match a with
  | String "-"%char (String "-"%char s) => s
  | String "-"%char s => s
  | _ => a
  end.

(** [flags[k] = true] on an object literal: every key becomes an own property
    but [__proto__], whose setter ignores a value that is no object. *)
Definition setTrue (k : string) (flags : gmap string FlagValue) : gmap string FlagValue :=
  if String.eqb k "__proto__" then flags else <[k := FBool true]> flags.

(** The last two cases of the second loop, which pass one token: a token that
    starts with a dash is a boolean flag, any other is a parameter. *)
Definition plainToken (a : string) (flags : gmap string FlagValue) (params : list string)
  : gmap string FlagValue * list string :=
  if Str.startsWith "-" a then (setTrue (stripDashes a) flags, params)
  else (flags, (params ++ [a])%list).

(** The second loop of [parseArgs], on the tokens from index [i] on. [--env]
    passes two tokens whether or not a second one is there; [--url],
    [--event], [-e], [--header] and [-H] take the next token when there is
    one ([i + 1 < args.length]) and are plain tokens otherwise. *)
Fixpoint commandFlags (args : list string) (flags : gmap string FlagValue)
    (params : list string) : gmap string FlagValue * list string :=
  match args with
  | [] => (flags, params)
  | a :: rest =>
      if String.eqb a "--env" then
        match rest with
        | [] => (flags, params)
        | _ :: rest' => commandFlags rest' flags params
        end
      else
        match rest with
        | v :: rest' =>
            if String.eqb a "--url" then
              commandFlags rest' (<["url" := FStr v]> flags) params
            else if String.eqb a "--event" || String.eqb a "-e" then
              commandFlags rest' (push "event" v flags) params
            else if String.eqb a "--header" || String.eqb a "-H" then
              commandFlags rest' (push "header" v flags) params
            else
              let '(flags', params') := plainToken a flags params in
              commandFlags rest flags' params'
        | [] => plainToken a flags params
        end
  end.

(** [parseArgs(argv)]. *)
Definition parseArgs (argv : list string) : ParsedArgs :=
  let args := drop 2 argv in
  if Nat.eqb (length args) 0 || includes "--help" args || includes "-h" args then usage
  else
    let '(envFile, rest) := globalFlags args None in
    let '(command, rest') :=
      match rest with
      | [] => (None, [])
      | a :: rest' => (Some a, rest')
      end in
    let '(flags, params) := commandFlags rest' ∅ [] in
    {| envFile := envFile; command := command; params := params; flags := flags |}.

(** [parseHeaders(values)], with [None] for [undefined]. *)
Definition flagTruthy (v : FlagValue) : bool :=
  match v with
  | FBool b => b
  | FStr s => negb (String.eqb s "")
  | FArr _ => true
  end.

Fixpoint parseHeaders_loop (arr : list string) (out : list WebhookHeader)
  : outcome (list WebhookHeader) :=
  match arr with
  | [] => Returned out
  | v :: arr' =>
      match Str.indexOf "="%char v with
      | None => Thrown (Error ("Invalid --header value: " ++ v ++ ". Expected key=value."))
      | Some idx =>
          let name := Str.trim (Str.sliceTo idx v) in
          let value := Str.trim (Str.sliceFrom (idx + 1) v) in
          if String.eqb name "" then
            Thrown (Error ("Invalid --header value: " ++ v ++ ". Name is empty."))
          else parseHeaders_loop arr' (out ++ [mkWebhookHeader name value])%list
      end
  end.

Definition parseHeaders (values : option FlagValue)
  : outcome (option (list WebhookHeader)) :=
  match values with
  | None => Returned None
  | Some v =>
      if negb (flagTruthy v) || match v with FBool true => true | _ => false end
      then Returned None
      else
        let arr := match v with FArr l => l | FStr s => [s] | FBool _ => [] end in
        match parseHeaders_loop arr [] with
        | Returned out => Returned (if Nat.eqb (length out) 0 then None else Some out)
        | Thrown e => Thrown e
        end
  end.

(** ** Vocabulary of the statements *)

(** The token endpoint's response [res] grants [token]: its status is in the
    2xx range, its body is JSON text, and the [access_token] of the parsed
    body is the truthy value [token]. *)
Definition grants (res : Response) (token : value) : Prop :=
  ok res = true /\
  exists data, json res = Some data /\ get data "access_token" = token /\ truthy token = true.

(** Every code unit of [s] satisfies [P]; and the code units an encoded
    identifier is made of: unreserved characters and the percent sign. *)
Fixpoint allChars (P : ascii -> bool) (s : string) : bool :=
  match s with
  | "" => true
  | String c s' => P c && allChars P s'
  end.

Definition escaped (s : string) : bool :=
  allChars (fun d => unreserved d || Ascii.eqb d "%"%char) s.

(** The world after the token was fetched from [w] and logged. *)
Definition authorized (c : Client) (w : World) (rest : list Response) (token : value) : World :=
  mkWorld rest (sent w ++ [tokenRequest c]) (console w ++ [token]).

(** No token of [args] asks for help. *)
Definition noHelp (args : list string) : Prop :=
  ("--help" ∉ args) /\ ("-h" ∉ args).

(** The tokens [--env x] for each [x] of a list, as they may stand before the
    command name; the first loop keeps the last [x]. *)
Definition envTokens (paths : list string) : list string :=
  flat_map (fun x => ["--env"; x]) paths.

(** The tokens of repeated events: [-e v] or [--event v] for each pair. *)
Definition eventTokens (evs : list (bool * string)) : list string :=
  flat_map (fun ev : bool * string => [if fst ev then "-e" else "--event"; snd ev]) evs.

(** The flags of the second loop that look at the token after them. *)
Definition takesValue (a : string) : bool :=
  bool_decide (a ∈ ["--env"; "--url"; "--event"; "-e"; "--header"; "-H"]).

(** [pre] is a sequence of whole tokens of the second loop: read from its
    first token, the loop ends exactly at the end of [pre], no flag of [pre]
    reaching past it for its value. The token after such a [pre] is read as a
    token, not as the value of a flag. *)
Fixpoint wholeTokens (pre : list string) : bool :=
  match pre with
  | [] => true
  | a :: rest =>
      if takesValue a then
        match rest with
        | [] => false
        | _ :: rest' => wholeTokens rest'
        end
      else wholeTokens rest
  end.

(** What the second loop records for the flag [a] and its value [u]: nothing
    for [--env], the string for [--url], one more element for the others. *)
Definition withValue (a u : string) (f : gmap string FlagValue) : gmap string FlagValue :=
  if bool_decide (a = "--env") then f
  else if bool_decide (a = "--url") then <["url" := FStr u]> f
  else if bool_decide (a ∈ ["--event"; "-e"]) then push "event" u f
  else push "header" u f.

(** The value-taking flags that fall back to a boolean flag, each with the
    name it is stored under. *)
Definition fallbackNames : list (string * string) :=
  [("--url", "url"); ("--event", "event"); ("-e", "e"); ("--header", "header"); ("-H", "H")].

(** A header token read as the specification reads it: [pre], an equals sign,
    [post], with no equals sign in [pre]. *)
Definition headerToken (pre post : string) : string := pre ++ String "="%char post.

Definition noEquals (s : string) : Prop := "="%char ∉ String.list_ascii_of_string s.

(** A token given by its two sides is well formed when its name side has no
    equals sign and is not blank; the header it stands for. *)
Definition goodToken (t : string * string) : Prop :=
  noEquals (fst t) /\ Str.trim (fst t) ≠ "".

Definition tokenOf (t : string * string) : string := headerToken (fst t) (snd t).

Definition headerOf (t : string * string) : WebhookHeader :=
  mkWebhookHeader (Str.trim (fst t)) (Str.trim (snd t)).

(** What trimming removes, said without the code's test: the white space and
    line terminators of ECMAScript among the code units below 256, which are
    TAB, LF, VT, FF, CR, SP and NBSP. A string is blank when it is made of
    these only, and tight when it neither starts nor ends with one of them
    (the empty string is both). *)
Definition whiteSpace : list ascii :=
  ["009"; "010"; "011"; "012"; "013"; " "; "160"]%char.

Definition white (c : ascii) : bool := bool_decide (c ∈ whiteSpace).

Definition blank (s : string) : bool := allChars white s.

Fixpoint endsWhite (s : string) : bool :=
  match s with
  | "" => false
  | String c "" => white c
  | String _ s' => endsWhite s'
  end.

Definition tight (s : string) : bool :=
  match s with
  | "" => true
  | String c _ => negb (white c) && negb (endsWhite s)
  end.

(** ** Concrete inputs *)

(** Two JSON objects with a [null] among the identifier fields. *)
Definition obj_null_fallback : gmap string value :=
  {[ "_id" := VNull; "uuid" := VStr "u-1" ]}.

Definition obj_null_id : gmap string value :=
  {[ "id" := VNull; "_id" := VStr "x-1" ]}.

Definition demoConfig : CarerixConfig :=
  {| baseUrl := "https://api.carerix.io/webhooks/v1/";
     applicationId := "app-1";
     oauth := {| authEndpoint := "https://id.carerix.io/token";
                 clientID := "cid";
                 clientSecret := "secret";
                 scopes := Some "urn:cx/webhooks:data:manage" |} |}.

Definition demoClient : Client := new_client demoConfig.

Definition tokenResponse : Response :=
  {| status := 200; statusText := "OK"; text := None;
     json := Some (VObj {[ "access_token" := VStr "tok-1" ]}) |}.

(** A 2xx answer of the token endpoint whose JSON body has no token. *)
Definition tokenMissing : Response :=
  {| status := 201; statusText := "Created"; text := Some "{}"; json := Some (VObj ∅) |}.

(** A 2xx answer of the token endpoint whose token is a number. *)
Definition tokenNumber : Response :=
  {| status := 200; statusText := "OK"; text := None;
     json := Some (VObj {[ "access_token" := VNum 7 ]}) |}.

Definition notFound : Response :=
  {| status := 404; statusText := "Not Found"; text := Some "no such webhook"; json := None |}.

(** A 2xx answer of the webhook endpoint with the given JSON body. *)
Definition okBody (data : value) : Response :=
  {| status := 200; statusText := "OK"; text := None; json := Some data |}.

(** A runtime whose [Number::toString] is never consulted: the tokens of the
    examples are strings. *)
Definition printNumber : float -> string := fun _ => "0".

Definition demoRequest : CreateWebhookRequest :=
  {| req_url := "https://example/webhook";
     filters := Some [mkWebhookFilter "cremployee:created"];
     customHeaders := None |}.

(** The body [{"items": [{"_id": "a"}]}]. *)
Definition itemsBody : value :=
  VObj {[ "items" := VArr [VObj {[ "_id" := VStr "a" ]}] ]}.

Definition worldOf (responses : list Response) : World :=
  {| pending := responses; sent := []; console := [] |}.

(** The header every operation sends after the token exchange. *)
Definition authorization (bearer : string) : list (string * string) :=
  [("Authorization", "Bearer " ++ bearer)].

(** The world an operation leaves behind when the token was granted: the
    token response and the next one (when there is one) are gone, the token
    request and [req] were sent, and the token was printed. *)
Definition afterOperation (c : Client) (w : World) (rest : list Response) (token : value)
    (req : Request) : World :=
  {| pending := tail rest;
     sent := sent w ++ [tokenRequest c; req];
     console := console w ++ [token] |}.

(** A 2xx answer without a body, as a DELETE gives. *)
Definition noContent : Response :=
  {| status := 204; statusText := "No Content"; text := Some ""; json := None |}.

(** A token that starts with a dash. *)
Definition dashed (a : string) : bool := Str.startsWith "-" a.

(** The boolean flags a sequence of dashed tokens sets, in their order. *)
Definition setAll (tokens : list string) (f : gmap string FlagValue) : gmap string FlagValue :=
  foldl (fun f a => setTrue (stripDashes a) f) f tokens.

(** The five flags that store a value, and a command line of pairs of such a
    flag and its value. *)
Definition valueFlags : list string := ["--url"; "--event"; "-e"; "--header"; "-H"].

Definition pairTokens (ps : list (string * string)) : list string :=
  flat_map (fun p : string * string => [fst p; snd p]) ps.

(** The values given with one of the flags [names], in their order. *)
Fixpoint valuesOf (names : list string) (ps : list (string * string)) : list string :=
  match ps with
  | [] => []
  | p :: ps' =>
      if bool_decide (fst p ∈ names) then snd p :: valuesOf names ps'
      else valuesOf names ps'
  end.

(** What a repeatable flag leaves under its key: nothing when it was never
    given, the sequence of its values otherwise. *)
Definition arrayFlag (l : list string) : option FlagValue :=
  match l with
  | [] => None
  | _ => Some (FArr l)
  end.

(** The state of the flag dictionary after the pairs [ps]. *)
Definition applyPairs (ps : list (string * string)) (f : gmap string FlagValue)
  : gmap string FlagValue :=
  foldl (fun f p => withValue (fst p) (snd p) f) f ps.

(** ** The environment and the configuration read from it *)

(** [process.env] as the source uses it: a dictionary from names to strings,
    on POSIX. Its own entries are the environment variables; the [in]
    operator also finds the names of [Object.prototype]; an assignment sets
    the variable, except for the empty name, which the system refuses (the
    assignment is then without effect). Names and values are C strings: the
    model is about names and file contents without a NUL code unit. *)
Module Env.

Definition inheritedNames : list string :=
  ["constructor"; "__defineGetter__"; "__defineSetter__"; "hasOwnProperty";
   "__lookupGetter__"; "__lookupSetter__"; "isPrototypeOf"; "propertyIsEnumerable";
   "toString"; "valueOf"; "__proto__"; "toLocaleString"].

(** [key in process.env]. *)
Definition has (key : string) (env : gmap string string) : bool :=
  bool_decide (is_Some (env !! key)) || bool_decide (key ∈ inheritedNames).

(** [process.env[key] = value]. *)
Definition set (key value : string) (env : gmap string string) : gmap string string :=
  if String.eqb key "" then env else <[key := value]> env.

(** [raw.split(/\r?\n/)]: the pieces between line feeds, a carriage return
    right before a line feed belonging to the separator. *)
Fixpoint splitLines (raw : string) : list string :=
  match raw with
  | "" => [""]
  | String c rest =>
      if Ascii.eqb c "010"%char then "" :: splitLines rest
      else
        match rest with
        | String d rest' =>
            if Ascii.eqb c "013"%char && Ascii.eqb d "010"%char then "" :: splitLines rest'
            else
              match splitLines rest with
              | line :: lines => String c line :: lines
              | [] => [String c ""]
              end
        | "" => [String c ""]
        end
  end.

(** The double quote, and [s.endsWith(c)] for a one-character [c]. *)
Definition dquote : ascii := Ascii.ascii_of_N 34.

Fixpoint endsWithChar (c : ascii) (s : string) : bool :=
  match s with
  | "" => false
  | String d "" => Ascii.eqb d c
  | String _ s' => endsWithChar c s'
  end.

Definition startsWithChar (c : ascii) (s : string) : bool :=
  match s with
  | String d _ => Ascii.eqb d c
  | "" => false
  end.

(** [value.slice(1, -1)] when [value] starts and ends with the same kind of
    quote, [value] otherwise. *)
Definition unquote (value : string) : string :=
  if (startsWithChar dquote value && endsWithChar dquote value)
     || (startsWithChar "'"%char value && endsWithChar "'"%char value)
  then Str.dropLast (Str.sliceFrom 1 value)
  else value.

(** The body of the loop of [loadEnvFile] up to the assignment: the key and
    the value a line stands for, [None] for a line that is passed over. *)
Definition parseLine (line : string) : option (string * string) :=
  let trimmed := Str.trim line in
  if String.eqb trimmed "" || startsWithChar "#"%char trimmed then None
  else
    match Str.indexOf "="%char trimmed with
    | None => None
    | Some idx =>
        let key := Str.trim (Str.sliceTo idx trimmed) in
        let value := Str.trim (Str.sliceFrom (idx + 1) trimmed) in
        Some (key, unquote value)
    end.

(** One turn of the loop: [if (!(key in process.env)) process.env[key] = value]. *)
Definition loadLine (env : gmap string string) (line : string) : gmap string string :=
  match parseLine line with
  | Some (key, value) => if has key env then env else set key value env
  | None => env
  end.

Definition loadLines (lines : list string) (env : gmap string string) : gmap string string :=
  foldl loadLine env lines.

End Env.

(** [readFileSync(path, 'utf-8')]: the content of the file, or the message of
    the error it throws. *)
Definition FileSystem : Type := string -> string + string.

(** [CarerixWebhooksClient.loadEnvFile(filePath)]: the environment after the
    call and what the call throws. Only reading the file can fail. *)
Definition loadEnvFile (fs : FileSystem) (filePath : string) (env : gmap string string)
  : outcome unit * gmap string string :=
  match fs filePath with
  | inr raw => (Returned tt, Env.loadLines (Env.splitLines raw) env)
  | inl message =>
      (Thrown (Error ("Failed to load env file at " ++ filePath ++ ": " ++ message)), env)
  end.

(** [requiredEnv(name)], for a name that is none of [Object.prototype] (the
    source asks for the four [CX_] names below): the variable must be set and
    not empty. *)
Definition requiredEnv (name : string) (env : gmap string string) : outcome string :=
  match env !! name with
  | Some (String a v) => Returned (String a v)
  | _ => Thrown (Error ("Missing required environment variable: " ++ name))
  end.

Definition defaultBaseUrl : string := "https://api.carerix.io/webhooks/v1".

(** [CarerixWebhooksClient.fromEnv(path)]: the file is loaded when a
    non-empty path is given, then the four required variables are read in the
    order of the source, then the two optional ones. *)
Definition fromEnv (fs : FileSystem) (path : option string) (env : gmap string string)
  : outcome Client * gmap string string :=
  let loaded :=
    match path with
    | Some (String a p) => loadEnvFile fs (String a p) env
    | _ => (Returned tt, env)
    end in
  match loaded with
  | (Thrown e, env') => (Thrown e, env')
  | (Returned _, env') =>
      (match requiredEnv "CX_AUTH_ENDPOINT" env' with
       | Thrown e => Thrown e
       | Returned authEndpoint =>
       match requiredEnv "CX_CLIENT_ID" env' with
       | Thrown e => Thrown e
       | Returned clientID =>
       match requiredEnv "CX_CLIENT_SECRET" env' with
       | Thrown e => Thrown e
       | Returned clientSecret =>
       match requiredEnv "CX_APPLICATION_ID" env' with
       | Thrown e => Thrown e
       | Returned applicationId =>
           let scopes := env' !! "CX_SCOPES" in
           let baseUrl :=
             match env' !! "CX_BASE_URL" with
             | Some (String a u) => String a u
             | _ => defaultBaseUrl
             end in
           Returned (new_client
             {| baseUrl := baseUrl;
                applicationId := applicationId;
                oauth := {| authEndpoint := authEndpoint; clientID := clientID;
                            clientSecret := clientSecret; scopes := scopes |} |})
       end end end end, env')
  end.

(** The names [fromEnv] requires, in the order it asks for them. *)
Definition requiredNames : list string :=
  ["CX_AUTH_ENDPOINT"; "CX_CLIENT_ID"; "CX_CLIENT_SECRET"; "CX_APPLICATION_ID"].

(** A variable that is set to a non-empty string. *)
Definition provided (env : gmap string string) (name : string) : bool :=
  match env !! name with
  | Some (String _ _) => true
  | _ => false
  end.

(** A file system that holds one file. *)
Definition oneFile (path content : string) : FileSystem :=
  fun p => if String.eqb p path then inr content else inl "ENOENT: no such file or directory".

Definition dotenv : string :=
  String.concat (String "010"%char "")
    ["# Carerix";
     "CX_CLIENT_ID = cid" ++ String "013"%char "";
     "CX_CLIENT_ID=other";
     "";
     "CX_CLIENT_SECRET='s e c'";
     "toString=x";
     "not a setting"].

(** ** The command runner *)

(** [printUsage()] prints these lines, joined by line feeds, in one call. *)
Definition usageLines : list string :=
  ["Usage: cx-webhooks [--env <path>] <command> [options]";
   "";
   "Commands:";
   "  list                                   List all webhooks";
   "  enable <id>                            Enable a webhook";
   "  disable <id>                           Disable a webhook";
   "  delete <id>                            Delete a webhook";
   "  create --url <url> --event <type> [--event <type> ...] [--header key=value ...]";
   "                                         Create a webhook (at least 1 --event required)";
   "";
   "Options:";
   "  --env <path>                           Path to .env file (default: .env)";
   "  --help                                 Show this help"].

Definition usageText : string := String.concat (String "010"%char "") usageLines.

(** The process around the client: the network and the console of [World],
    the environment, what [console.error] printed (each entry stands for the
    message of the error it holds), and [process.exitCode]. *)
Record Process : Type := mkProcess {
  world : World;
  environ : gmap string string;
  stderr : list exn;
  exitCode : option N
}.

Definition P (A : Type) : Type := Process -> outcome A * Process.

#[global] Instance P_ret : MRet P := fun A a p => (Returned a, p).

#[global] Instance P_bind : MBind P := fun A B f m p =>
  match m p with
  | (Returned a, p') => f a p'
  | (Thrown e, p') => (Thrown e, p')
  end.

Definition raise {A : Type} (e : exn) : P A := fun p => (Thrown e, p).

(** A method of the client, run on the world of the process. *)
Definition call {A : Type} (m : M A) : P A := fun p =>
  let '(o, w') := m (world p) in
  (o, mkProcess w' (environ p) (stderr p) (exitCode p)).

(** [console.log(s)] for a string. *)
Definition print (s : string) : P unit := fun p =>
  (Returned tt,
   mkProcess (mkWorld (pending (world p)) (sent (world p)) (console (world p) ++ [VStr s]))
             (environ p) (stderr p) (exitCode p)).

(** [console.error(err.message); process.exitCode = 1]. *)
Definition reportFailure (e : exn) (p : Process) : Process :=
  mkProcess (world p) (environ p) (stderr p ++ [e]) (Some 1%N).

(** [printUsage(); process.exitCode = 1]. *)
Definition usageFailure (p : Process) : Process :=
  mkProcess (mkWorld (pending (world p)) (sent (world p))
                     (console (world p) ++ [VStr usageText]))
            (environ p) (stderr p) (Some 1%N).

Section Runner.

Variable nts : float -> string.

(** A substitution of a template literal: the value converted, or the
    [TypeError] of the conversion. *)
Definition template (v : value) : P string :=
  match toStringThrowing nts v with
  | Some s => mret s
  | None => raise TypeError
  end.

(** [(w.filters || []).map((f) => f.eventType).join(', ')]. *)
Definition eventsOf (w : gmap string value) : P string :=
  let filters := default VUndef (w !! "filters") in
  match (if truthy filters then filters else VArr []) with
  | VArr l =>
      match mapM (fun f => if nullish f then None else Some (get f "eventType")) l with
      | None => raise TypeError
      | Some types =>
          match mapM (fun e => if nullish e then Some "" else toStringThrowing nts e) types with
          | Some parts => mret (String.concat ", " parts)
          | None => raise TypeError
          end
      end
  | _ => raise TypeError
  end.

(** One turn of the loop of the [list] command. *)
Definition printWebhook (w : gmap string value) : P unit :=
  events ← eventsOf w;
  let enabled :=
    match w !! "enabled" with
    | None | Some VUndef => ""
    | Some v => if truthy v then "enabled" else "disabled"
    end in
  id ← template (default VUndef (w !! "id"));
  url ← template (default VUndef (w !! "url"));
  print (id ++ "  " ++ enabled ++ "  " ++ url ++ "  [" ++ events ++ "]").

Fixpoint printWebhooks (items : list (gmap string value)) : P unit :=
  match items with
  | [] => mret tt
  | w :: items' => _ ← printWebhook w; printWebhooks items'
  end.

(** [createWebhook(req)] for the request object [main] builds, whose [url] is
    whatever the flag [url] holds: the same method as [createWebhook] above,
    at the type the values have at run time. *)
Definition createWebhookWith (c : Client) (urlValue : value) (filters : list WebhookFilter)
    (customHeaders : option (list WebhookHeader)) : M Webhook :=
  let fields : gmap string value :=
    let with_headers (m : gmap string value) :=
      match customHeaders with
      | Some hs => <["customHeaders" := VArr (headerValue <$> hs)]> m
      | None => m
      end in
    with_headers (<["filters" := VArr (filterValue <$> filters)]> {[ "url" := urlValue ]}) in
  headers ← authHeaders nts c;
  res ← fetch {| url := appUrl c "/webhooks";
                 method := "POST";
                 headers := headers ++ [("Content-Type", "application/json")];
                 body := Some (BodyJson (VObj (fields ∪ {[ "_kind" := VStr "Webhook" ]}))) |};
  if negb (ok res) then
    text ← textOrEmpty res;
    throw (Error (failureMessage "Create webhook" res text))
  else
    data ← parseJson res;
    mret (normalizeWebhook data).

(** The value a flag holds at run time. *)
Definition flagValue (v : FlagValue) : value :=
  match v with
  | FBool b => VBool b
  | FStr s => VStr s
  | FArr l => VArr (VStr <$> l)
  end.

(** [parsed.params[0]], and the test [!id]. *)
Definition firstParam (parsed : ParsedArgs) : option string :=
  match params parsed with
  | String a s :: _ => Some (String a s)
  | _ => None
  end.

(** The [switch] of [main]: [None] stands for the [default] case, which
    throws nothing. *)
Definition runCommand (client : Client) (cmd : string) (parsed : ParsedArgs)
  : option (P unit) :=
  if String.eqb cmd "list" then Some (
    items ← call (listWebhooks nts client);
    if Nat.eqb (length items) 0 then print "No webhooks found."
    else printWebhooks items)
  else if String.eqb cmd "enable" then Some (
    match firstParam parsed with
    | None => raise (Error "Missing <id>. Usage: cx-webhooks enable <id>")
    | Some id =>
        res ← call (enableWebhook nts client id);
        shown ← template (default VUndef (res !! "id"));
        print ("Enabled webhook " ++ shown)
    end)
  else if String.eqb cmd "disable" then Some (
    match firstParam parsed with
    | None => raise (Error "Missing <id>. Usage: cx-webhooks disable <id>")
    | Some id =>
        res ← call (disableWebhook nts client id);
        shown ← template (default VUndef (res !! "id"));
        print ("Disabled webhook " ++ shown)
    end)
  else if String.eqb cmd "delete" then Some (
    match firstParam parsed with
    | None => raise (Error "Missing <id>. Usage: cx-webhooks delete <id>")
    | Some id =>
        _ ← call (deleteWebhook nts client id);
        print ("Deleted webhook " ++ id)
    end)
  else if String.eqb cmd "create" then Some (
    let url := flags parsed !! "url" in
    let events := flags parsed !! "event" in
    if negb (from_option flagTruthy false url) then raise (Error "Missing --url.")
    else
      match events with
      | Some (FArr (e :: es)) =>
          match parseHeaders (flags parsed !! "header") with
          | Thrown err => raise err
          | Returned headers =>
              res ← call (createWebhookWith client (from_option flagValue VUndef url)
                            (mkWebhookFilter <$> (e :: es)) headers);
              shown ← template (default VUndef (res !! "id"));
              print ("Created webhook " ++ shown)
          end
      | Some (FStr (String a s)) =>
          match parseHeaders (flags parsed !! "header") with
          | Thrown err => raise err
          | Returned _ => raise TypeError
          end
      | _ => raise (Error "At least one --event is required.")
      end)
  else None.

(** [main()], from the arguments of the process to the state it leaves. *)
Definition main (fs : FileSystem) (argv : list string) (p : Process) : Process :=
  let parsed := parseArgs argv in
  match command parsed with
  | Some (String a s) =>
      let cmd := String a s in
      let envPath :=
        match envFile parsed with
        | Some (String b t) => String b t
        | _ => ".env"
        end in
      match fromEnv fs (Some envPath) (environ p) with
      | (Thrown e, env') =>
          reportFailure e (mkProcess (world p) env' (stderr p) (exitCode p))
      | (Returned client, env') =>
          let p' := mkProcess (world p) env' (stderr p) (exitCode p) in
          match runCommand client cmd parsed with
          | None => usageFailure p'
          | Some run =>
              match run p' with
              | (Returned _, p'') => p''
              | (Thrown e, p'') => reportFailure e p''
              end
          end
      end
  | _ => usageFailure p
  end.

End Runner.

(** The commands [main] knows. *)
Definition commands : list string := ["list"; "enable"; "disable"; "delete"; "create"].

(** An environment with the four required variables, and a process that
    starts in it with the given responses pending. *)
Definition demoEnv : gmap string string :=
  {[ "CX_AUTH_ENDPOINT" := "https://id.carerix.io/token";
     "CX_CLIENT_ID" := "cid";
     "CX_CLIENT_SECRET" := "secret";
     "CX_APPLICATION_ID" := "app-1" ]}.

Definition processOf (responses : list Response) : Process :=
  {| world := worldOf responses; environ := demoEnv; stderr := []; exitCode := None |}.

Definition emptyFile : FileSystem := fun _ => inr "".

(** The client [fromEnv] builds in [demoEnv]. *)
Definition envClient : Client :=
  {| this_baseUrl := defaultBaseUrl;
     this_applicationId := "app-1";
     this_oauth := {| authEndpoint := "https://id.carerix.io/token";
                      clientID := "cid";
                      clientSecret := "secret";
                      scopes := None |} |}.

(** The two commands that answer with a webhook: the command, the word
    [main] prints for it, and the end of the path it posts to. *)
Definition switches : list (string * (string * string)) :=
  [("enable", ("Enabled", "/enable")); ("disable", ("Disabled", "/disable"))].

(** A webhook as the server is expected to list it, the JSON object that
    stands for it, and the line [main] prints for it. *)
Record Listed : Type := mkListed {
  listed_id : string;
  listed_url : string;
  listed_enabled : option bool;
  listed_events : list string
}.

Definition listedValue (x : Listed) : value :=
  let fields : gmap string value :=
    {[ "id" := VStr (listed_id x);
       "url" := VStr (listed_url x);
       "filters" := VArr ((fun t => VObj {[ "eventType" := VStr t ]}) <$> listed_events x) ]} in
  VObj match listed_enabled x with
       | Some b => <["enabled" := VBool b]> fields
       | None => fields
       end.

Definition listedLine (x : Listed) : string :=
  listed_id x ++ "  "
  ++ match listed_enabled x with
     | Some true => "enabled"
     | Some false => "disabled"
     | None => ""
     end
  ++ "  " ++ listed_url x ++ "  [" ++ String.concat ", " (listed_events x) ++ "]".

(** Two webhooks a server may list. *)
Definition listing : list Listed :=
  [mkListed "wh-1" "https://e/x" (Some true) ["a:created"; "b:updated"];
   mkListed "wh-2" "https://e/y" None []].

(** A 2xx answer of the token endpoint whose token is an object with an own
    [toString] entry: [{"access_token": {"toString": null}}]. *)
Definition tokenObject : Response :=
  {| status := 200; statusText := "OK"; text := None;
     json := Some (VObj {[ "access_token" := VObj {[ "toString" := VNull ]} ]}) |}.

(** The object [main] hands to [JSON.stringify] for [create]: [_kind], the
    value of the flag [url], one filter for each event and, when there are
    any, the headers. *)
Definition createFields (urlValue : value) (events : list string)
    (hs : option (list WebhookHeader)) : gmap string value :=
  let base : gmap string value :=
    <["filters" := VArr (filterValue <$> (mkWebhookFilter <$> events))]>
      {[ "url" := urlValue ]} in
  <["_kind" := VStr "Webhook"]>
    match hs with
    | Some l => <["customHeaders" := VArr (headerValue <$> l)]> base
    | None => base
    end.

(** * Properties *)

(** ** Evaluation on small inputs *)

Example encodeURIComponent_plain : encodeURIComponent "wh-42_a.B" = "wh-42_a.B".
Proof. reflexivity. Qed.

Example encodeURIComponent_reserved : encodeURIComponent "a/b c?" = "a%2Fb%20c%3F".
Proof. vm_compute. reflexivity. Qed.

Example trim_example : Str.trim "  x-api-key " = "x-api-key".
Proof. reflexivity. Qed.

Example parseArgs_list_env :
  parseArgs ["node"; "cli.js"; "--env"; ".env.dev"; "list"]
  = {| envFile := Some ".env.dev"; command := Some "list"; params := []; flags := ∅ |}.
Proof. vm_compute. reflexivity. Qed.

Example parseArgs_enable :
  parseArgs ["node"; "cli.js"; "enable"; "12345"; "--verbose"]
  = {| envFile := None; command := Some "enable"; params := ["12345"];
       flags := {[ "verbose" := FBool true ]} |}.
Proof. vm_compute. reflexivity. Qed.

Example parseHeaders_one :
  parseHeaders (Some (FArr ["x-api-key=secret"]))
  = Returned (Some [mkWebhookHeader "x-api-key" "secret"]).
Proof. vm_compute. reflexivity. Qed.

(** ** Theorems: normalization *)

Lemma get_obj_None m k : m !! k = None -> get (VObj m) k = VUndef.
Proof. intros H. simpl. by rewrite H. Qed.

Lemma coalesce_chain_populated m :
  get (VObj m) "_id" ?? get (VObj m) "webhookId" ?? get (VObj m) "uuid"
  = (let v := first_populated m ["_id"; "webhookId"] in
     if nullish v then default VUndef (m !! "uuid") else v).
Proof.
  cbn [get first_populated]. unfold coalesce.
  destruct (m !! "_id") as [[]|], (m !! "webhookId") as [[]|]; reflexivity.
Qed.

Lemma normalizeWebhook_lookup_id m :
  normalizeWebhook (VObj m) !! "id" = Some (resolved_id m).
Proof.
  unfold normalizeWebhook, resolved_id. cbn [spread].
  destruct (m !! "id") as [v|] eqn:E.
  - apply lookup_union_Some_l. exact E.
  - rewrite lookup_union_r by exact E.
    rewrite lookup_singleton_eq. f_equal.
    rewrite (get_obj_None _ _ E).
    change (VUndef ?? get (VObj m) "_id") with (get (VObj m) "_id").
    apply coalesce_chain_populated.
Qed.

Lemma normalizeWebhook_lookup_other m k :
  k ≠ "id" -> normalizeWebhook (VObj m) !! k = m !! k.
Proof.
  intros Hk. unfold normalizeWebhook. cbn [spread].
  destruct (m !! k) as [v|] eqn:E.
  - apply lookup_union_Some_l. exact E.
  - rewrite lookup_union_r by exact E. by rewrite lookup_singleton_ne.
Qed.

(** C1 (as the code has it). For every object [m] given to normalization, the
    result maps [id] to the object's own [id] value when the object has that
    key (whatever the value, [null] included); without that key, to the value
    of the first of [_id], [webhookId] that is neither [null] nor
    [undefined], and when there is none to the value of [uuid] ([undefined]
    when [uuid] is absent). Every other key of the result is a key of the
    input with the same value, and every key/value pair of the input is in
    the result. *)
Theorem normalizeWebhook_resolves_and_preserves (m : gmap string value) (k : string) :
  normalizeWebhook (VObj m) !! k
    = (if decide (k = "id") then Some (resolved_id m) else m !! k)
  /\ m ⊆ normalizeWebhook (VObj m).
Proof.
  split.
  - case_decide as Hk.
    + subst k. apply normalizeWebhook_lookup_id.
    + by apply normalizeWebhook_lookup_other.
  - unfold normalizeWebhook. cbn [spread]. apply map_union_subseteq_l.
Qed.

(** C1 (as stated) fails. Read by keys, the first present field of
    [{"_id": null, "uuid": "u-1"}] is [_id], whose value is [null], and the
    code resolves ["u-1"]; read by values, the first populated field of
    [{"id": null, "_id": "x-1"}] is [_id], and the code leaves [id] at
    [null]. *)
Lemma normalizeWebhook_null_fields_counterexample :
  (first_present obj_null_fallback id_fields = VNull
   /\ normalizeWebhook (VObj obj_null_fallback) !! "id" = Some (VStr "u-1")
   /\ VStr "u-1" ≠ VNull)
  /\ (first_populated obj_null_id id_fields = VStr "x-1"
      /\ normalizeWebhook (VObj obj_null_id) !! "id" = Some VNull
      /\ VNull ≠ VStr "x-1").
Proof. repeat split; try discriminate; vm_compute; reflexivity. Qed.

(** ** Theorems: token acquisition *)

Lemma bind_Returned {A B : Type} (m : M A) (f : A -> M B) w a w' :
  m w = (Returned a, w') -> (m ≫= f) w = f a w'.
Proof. intros H. unfold mbind, M_bind. by rewrite H. Qed.

Lemma fetch_pending req w res rest :
  pending w = res :: rest ->
  fetch req w = (Returned res, mkWorld rest (sent w ++ [req]) (console w)).
Proof. intros H. unfold fetch. by rewrite H. Qed.

(** The outcome of [getAccessToken] on the response the endpoint gives. *)
Lemma getAccessToken_outcome c w res rest :
  pending w = res :: rest ->
  getAccessToken c w =
    (if ok res then
       match json res with
       | Some data =>
           if truthy (get data "access_token")
           then Returned (get data "access_token")
           else Thrown (Error "No access_token in OAuth response")
       | None => Thrown SyntaxError
       end
     else Thrown (Error ("Failed to fetch access token: " ++ Str.ofN (status res) ++ " "
                         ++ statusText res ++ " " ++ default "" (text res))),
     mkWorld rest (sent w ++ [tokenRequest c]) (console w)).
Proof.
  intros Hp. unfold getAccessToken.
  rewrite (bind_Returned _ _ _ _ _ (fetch_pending _ _ _ _ Hp)).
  destruct (ok res); cbn [negb].
  - unfold parseJson. destruct (json res) as [data|]; [|reflexivity].
    unfold mbind, M_bind, mret, M_ret.
    destruct (truthy (get data "access_token")); reflexivity.
  - reflexivity.
Qed.

Lemma getAccessToken_granted c w res rest token :
  pending w = res :: rest -> grants res token ->
  getAccessToken c w = (Returned token, mkWorld rest (sent w ++ [tokenRequest c]) (console w)).
Proof.
  intros Hp (Hok & data & Hj & Hget & Ht).
  rewrite (getAccessToken_outcome _ _ _ _ Hp), Hok, Hj, Hget, Ht. reflexivity.
Qed.

(** C3 (as the code has it). When the token endpoint answers with [res],
    [getAccessToken] returns a value exactly when [res] has a 2xx status and a
    JSON body whose [access_token] is truthy, and returns that value, string
    or not. A status outside 2xx throws an [Error] whose message carries the
    status, the status text and the body text (empty when it cannot be
    read). With a 2xx status, a body that is no JSON throws the
    [SyntaxError] of the JSON parser, and a JSON body whose [access_token] is
    missing or falsy throws the [Error] "No access_token in OAuth response":
    neither carries the status, the status text or the body. *)
Theorem getAccessToken_succeeds_iff c w res rest :
  pending w = res :: rest ->
  (forall token, fst (getAccessToken c w) = Returned token <-> grants res token)
  /\ (ok res = false ->
      fst (getAccessToken c w)
      = Thrown (Error ("Failed to fetch access token: " ++ Str.ofN (status res) ++ " "
                       ++ statusText res ++ " " ++ default "" (text res))))
  /\ (ok res = true -> json res = None ->
      fst (getAccessToken c w) = Thrown SyntaxError)
  /\ (forall data, ok res = true -> json res = Some data ->
      truthy (get data "access_token") = false ->
      fst (getAccessToken c w) = Thrown (Error "No access_token in OAuth response")).
Proof.
  intros Hp. rewrite (getAccessToken_outcome _ _ _ _ Hp). cbn [fst].
  split; [|split; [|split]].
  - intros token. split.
    + intros H. destruct (ok res) eqn:Hok; [|discriminate].
      destruct (json res) as [data|] eqn:Hj; [|discriminate].
      destruct (truthy (get data "access_token")) eqn:Ht; [|discriminate].
      injection H as <-. split; [exact Hok|]. exists data. auto.
    + intros (Hok & data & Hj & Hget & Ht). rewrite Hok, Hj, Hget, Ht. reflexivity.
  - intros ->. reflexivity.
  - intros -> ->. reflexivity.
  - intros data -> -> ->. reflexivity.
Qed.

Lemma getAccessToken_succeeds_iff_witness :
  pending (worldOf [tokenResponse]) = [tokenResponse]
  /\ fst (getAccessToken demoClient (worldOf [tokenResponse])) = Returned (VStr "tok-1").
Proof.
  split; [reflexivity|].
  apply (proj1 (getAccessToken_succeeds_iff demoClient (worldOf [tokenResponse])
                  tokenResponse [] eq_refl)).
  split; [reflexivity|].
  eexists. split; [reflexivity|]. split; reflexivity.
Defined.

(** C3 (as stated) fails. The token endpoint answers 201 Created with the JSON
    body [{}]: the error thrown is "No access_token in OAuth response", which
    carries neither the status nor the status text. And it answers 200 with
    [{"access_token": 7}]: the call succeeds, with a token that is no
    string. *)
Lemma getAccessToken_error_without_status_counterexample :
  (ok tokenMissing = true
   /\ fst (getAccessToken demoClient (worldOf [tokenMissing]))
      = Thrown (Error "No access_token in OAuth response")
   /\ Str.contains (Str.ofN (status tokenMissing)) "No access_token in OAuth response" = false
   /\ Str.contains (statusText tokenMissing) "No access_token in OAuth response" = false)
  /\ (fst (getAccessToken demoClient (worldOf [tokenNumber])) = Returned (VNum 7)
      /\ forall s, VNum 7 ≠ VStr s).
Proof. repeat split; try discriminate; vm_compute; reflexivity. Qed.

(** ** Theorems: the five operations *)

Section Run.

Variable nts : float -> string.
Variables (c : Client) (w : World) (tokRes : Response) (rest : list Response) (token : value).
Hypothesis Hpending : pending w = tokRes :: rest.
Hypothesis Hgrants : grants tokRes token.

(** [authHeaders] after a granted token: the token is printed, and the header
    is there when the token has a string form. *)
Lemma authHeaders_run :
  authHeaders nts c w
  = (match toStringThrowing nts token with
     | Some bearer => Returned [("Authorization", "Bearer " ++ bearer)]
     | None => Thrown TypeError
     end, authorized c w rest token).
Proof.
  unfold authHeaders.
  rewrite (bind_Returned _ _ _ _ _ (getAccessToken_granted _ _ _ _ _ Hpending Hgrants)).
  unfold mbind, M_bind, console_log, authorized.
  destruct (toStringThrowing nts token); reflexivity.
Qed.

(** A token without a string form ends every operation in [authHeaders]. *)
Lemma operation_unconvertible {A : Type} (k : list (string * string) -> M A) :
  toStringThrowing nts token = None ->
  (authHeaders nts c ≫= k) w = (Thrown TypeError, authorized c w rest token).
Proof.
  intros Hnone. unfold mbind at 1, M_bind. by rewrite authHeaders_run, Hnone.
Qed.

Variable bearer : string.
Hypothesis Hbearer : toStringThrowing nts token = Some bearer.

Lemma authHeaders_granted :
  authHeaders nts c w
  = (Returned [("Authorization", "Bearer " ++ bearer)], authorized c w rest token).
Proof. by rewrite authHeaders_run, Hbearer. Qed.

(** An operation that sends [req] after the token exchange and then goes on
    with [k]: what the run does with the answer. *)
Lemma operation_run {A : Type} (mk : list (string * string) -> Request) (k : Response -> M A) :
  (authHeaders nts c ≫= fun headers => fetch (mk headers) ≫= k) w
  = match rest with
    | [] => (Thrown TypeError,
             mkWorld [] (sent (authorized c w rest token)
                           ++ [mk [("Authorization", "Bearer " ++ bearer)]])
                     (console (authorized c w rest token)))
    | res :: rest' =>
        k res (mkWorld rest' (sent (authorized c w rest token)
                              ++ [mk [("Authorization", "Bearer " ++ bearer)]])
                       (console (authorized c w rest token)))
    end.
Proof.
  rewrite (bind_Returned _ _ _ _ _ authHeaders_granted).
  unfold mbind at 1, M_bind, fetch. cbn [pending authorized].
  destruct rest; reflexivity.
Qed.

End Run.

Lemma prefix_app (p s : string) : String.prefix p (p ++ s) = true.
Proof.
  induction p as [|a p IH].
  - by destruct s.
  - change (String a p ++ s) with (String a (p ++ s)). simpl.
    destruct (Ascii.ascii_dec a a) as [_|Hne]; [exact IH | by destruct Hne].
Qed.

Lemma string_app_assoc (a b c : string) : (a ++ b) ++ c = a ++ b ++ c.
Proof.
  induction a as [|x a IH]; [reflexivity|].
  change (String x ((a ++ b) ++ c) = String x (a ++ b ++ c)). by rewrite IH.
Qed.

Lemma contains_prefix (needle hay : string) :
  String.prefix needle hay = true -> Str.contains needle hay = true.
Proof. destruct hay; simpl; intros ->; reflexivity. Qed.

Lemma contains_infix (needle pre post : string) :
  Str.contains needle (pre ++ needle ++ post) = true.
Proof.
  induction pre as [|a pre IH].
  - change ("" ++ needle ++ post) with (needle ++ post).
    apply contains_prefix, prefix_app.
  - change (String a pre ++ needle ++ post) with (String a (pre ++ needle ++ post)).
    simpl. rewrite IH. apply orb_true_r.
Qed.

(** C4. For each of the five public operations: when the token exchange
    succeeded with a token that has a string form (a string, but also a
    number, [true], an array or object that converts), so that the request
    reaches the webhook endpoint, and the endpoint answers with a status
    outside 2xx, the operation throws an [Error] and returns no result; the
    message starts with the name of the operation, followed by "failed:", the
    decimal status, the status text and the body text (empty when it cannot
    be read). *)
Theorem operations_reject_non_2xx nts c w tokRes res rest token bearer req id :
  pending w = tokRes :: res :: rest ->
  grants tokRes token ->
  toStringThrowing nts token = Some bearer ->
  ok res = false ->
  let message what :=
    what ++ " failed: " ++ Str.ofN (status res) ++ " " ++ statusText res ++ " "
         ++ default "" (text res) in
  fst (createWebhook nts c req w) = Thrown (Error (message "Create webhook"))
  /\ fst (listWebhooks nts c w) = Thrown (Error (message "List webhooks"))
  /\ fst (enableWebhook nts c id w) = Thrown (Error (message "Enable webhook"))
  /\ fst (disableWebhook nts c id w) = Thrown (Error (message "Disable webhook"))
  /\ fst (deleteWebhook nts c id w) = Thrown (Error (message "Delete webhook"))
  /\ forall what,
       Str.startsWith what (message what) = true
       /\ Str.contains (Str.ofN (status res)) (message what) = true
       /\ Str.contains (statusText res) (message what) = true.
Proof.
  intros Hp Hg Hb Hok message.
  repeat match goal with |- _ /\ _ => split end.
  - unfold createWebhook.
    rewrite (operation_run nts c w tokRes (res :: rest) token Hp Hg bearer Hb), Hok.
    reflexivity.
  - unfold listWebhooks.
    rewrite (operation_run nts c w tokRes (res :: rest) token Hp Hg bearer Hb), Hok.
    reflexivity.
  - unfold enableWebhook.
    rewrite (operation_run nts c w tokRes (res :: rest) token Hp Hg bearer Hb), Hok.
    reflexivity.
  - unfold disableWebhook.
    rewrite (operation_run nts c w tokRes (res :: rest) token Hp Hg bearer Hb), Hok.
    reflexivity.
  - unfold deleteWebhook.
    rewrite (operation_run nts c w tokRes (res :: rest) token Hp Hg bearer Hb), Hok.
    reflexivity.
  - intros what. split; [|split].
    + apply prefix_app.
    + unfold message.
      rewrite <- (string_app_assoc what " failed: ").
      apply contains_infix.
    + unfold message.
      replace (what ++ " failed: " ++ Str.ofN (status res) ++ " " ++ statusText res ++ " "
               ++ default "" (text res))
        with ((what ++ " failed: " ++ Str.ofN (status res) ++ " ") ++ statusText res ++ " "
              ++ default "" (text res))
        by (rewrite !string_app_assoc; reflexivity).
      apply contains_infix.
Qed.

Lemma tokenResponse_grants : grants tokenResponse (VStr "tok-1").
Proof.
  split; [reflexivity|]. eexists. split; [reflexivity|]. split; reflexivity.
Defined.

Lemma operations_reject_non_2xx_witness :
  pending (worldOf [tokenResponse; notFound]) = [tokenResponse; notFound]
  /\ ok notFound = false
  /\ fst (deleteWebhook printNumber demoClient "wh-1" (worldOf [tokenResponse; notFound]))
     = Thrown (Error "Delete webhook failed: 404 Not Found no such webhook").
Proof.
  split; [reflexivity|]. split; [reflexivity|].
  exact (proj1 (proj2 (proj2 (proj2 (proj2
    (operations_reject_non_2xx printNumber demoClient (worldOf [tokenResponse; notFound])
       tokenResponse notFound [] (VStr "tok-1") "tok-1" demoRequest "wh-1"
       eq_refl tokenResponse_grants eq_refl eq_refl)))))).
Defined.

(** ** Theorems: the shapes [listWebhooks] accepts *)

Lemma listWebhooks_ok nts c w tokRes res rest token bearer data :
  pending w = tokRes :: res :: rest ->
  grants tokRes token ->
  toStringThrowing nts token = Some bearer ->
  ok res = true ->
  json res = Some data ->
  fst (listWebhooks nts c w) = Returned (normalizeWebhook <$> listItems data).
Proof.
  intros Hp Hg Hb Hok Hj. unfold listWebhooks.
  rewrite (operation_run nts c w tokRes (res :: rest) token Hp Hg bearer Hb), Hok.
  cbn [negb]. unfold parseJson. rewrite Hj. reflexivity.
Qed.

(** C2 (as the code has it). When the token exchange succeeded with a token
    that has a string form, so that the request reaches the webhook endpoint,
    and the endpoint answers 2xx with the JSON body [data], [listWebhooks]
    returns:
    for an array, its elements normalized, as many and in the same order; for
    an object whose [items] is an array, the normalized elements of that
    array in order; for any other object, the one normalized entry of the
    object; and for a body that is neither array nor object, one normalized
    entry when the body is truthy ([true], a number other than zero, a
    non-empty string) and the empty sequence when it is falsy ([null],
    [false], zero, the empty string). *)
Theorem listWebhooks_shapes nts c w tokRes res rest token bearer data :
  pending w = tokRes :: res :: rest ->
  grants tokRes token ->
  toStringThrowing nts token = Some bearer ->
  ok res = true ->
  json res = Some data ->
  (forall l, data = VArr l ->
     fst (listWebhooks nts c w) = Returned (normalizeWebhook <$> l)
     /\ length (normalizeWebhook <$> l) = length l)
  /\ (forall m l, data = VObj m -> m !! "items" = Some (VArr l) ->
     fst (listWebhooks nts c w) = Returned (normalizeWebhook <$> l))
  /\ (forall m, data = VObj m -> (forall l, m !! "items" ≠ Some (VArr l)) ->
     fst (listWebhooks nts c w) = Returned [normalizeWebhook data])
  /\ ((forall l, data ≠ VArr l) -> (forall m, data ≠ VObj m) ->
     fst (listWebhooks nts c w)
     = Returned (if truthy data then [normalizeWebhook data] else [])).
Proof.
  intros Hp Hg Hb Hok Hj.
  rewrite (listWebhooks_ok nts c w tokRes res rest token bearer data Hp Hg Hb Hok Hj).
  split; [|split; [|split]].
  - intros l ->. split; [reflexivity | apply length_fmap].
  - intros m l -> Hitems. unfold listItems. cbn [isArray get]. rewrite Hitems. reflexivity.
  - intros m -> Hitems. unfold listItems. cbn [isArray get truthy].
    destruct (m !! "items") as [[]|] eqn:E; try reflexivity.
    exfalso. by eapply Hitems.
  - intros Harr Hobj. unfold listItems.
    destruct data; try reflexivity.
    + destruct (truthy _); reflexivity.
    + destruct (truthy _); reflexivity.
    + destruct (truthy _); reflexivity.
    + exfalso. by eapply Harr.
    + exfalso. by eapply Hobj.
Qed.

Lemma listWebhooks_shapes_witness :
  fst (listWebhooks printNumber demoClient (worldOf [tokenResponse; okBody itemsBody]))
  = Returned (normalizeWebhook <$> [VObj {[ "_id" := VStr "a" ]}]).
Proof.
  exact (proj1 (proj2
    (listWebhooks_shapes printNumber demoClient
       (worldOf [tokenResponse; okBody itemsBody]) tokenResponse (okBody itemsBody) []
       (VStr "tok-1") "tok-1" itemsBody eq_refl tokenResponse_grants eq_refl eq_refl eq_refl))
    _ [VObj {[ "_id" := VStr "a" ]}] eq_refl eq_refl).
Defined.

(** C2 (as stated) fails. The webhook endpoint answers 2xx with the JSON body
    [42], which is no array and no object: [listWebhooks] returns one entry,
    not the empty sequence. *)
Lemma listWebhooks_number_body_counterexample :
  isArray (VNum 42) = false
  /\ fst (listWebhooks printNumber demoClient (worldOf [tokenResponse; okBody (VNum 42)]))
     = Returned [ {[ "id" := VUndef ]} ]
  /\ Returned [ ({[ "id" := VUndef ]} : gmap string value) ] ≠ Returned [].
Proof. repeat split; try discriminate; vm_compute; reflexivity. Qed.

(** ** Theorems: construction and request paths *)

Lemma string_app_cons (a : ascii) (s t : string) : String a s ++ t = String a (s ++ t).
Proof. reflexivity. Qed.

Lemma endsWithSlash_app (t : string) : Str.endsWithSlash (t ++ "/") = true.
Proof.
  induction t as [|a t IH]; [reflexivity|].
  rewrite string_app_cons. simpl. destruct (t ++ "/") eqn:E; [|exact IH].
  destruct t; discriminate.
Qed.

Lemma dropLast_app (t : string) (x : ascii) : Str.dropLast (t ++ String x "") = t.
Proof.
  induction t as [|a t IH]; [reflexivity|].
  rewrite string_app_cons. simpl. destruct (t ++ String x "") eqn:E.
  - destruct t; discriminate.
  - by rewrite IH.
Qed.

Lemma endsWithSlash_inv (s : string) :
  Str.endsWithSlash s = true -> s = Str.dropLast s ++ "/".
Proof.
  induction s as [|a s IH]; [discriminate|].
  simpl. destruct s as [|b s].
  - intros H. apply Ascii.eqb_eq in H. by subst.
  - intros H. rewrite string_app_cons. f_equal. by apply IH.
Qed.

Lemma allChars_app P (s t : string) : allChars P (s ++ t) = allChars P s && allChars P t.
Proof.
  induction s as [|a s IH]; [reflexivity|].
  rewrite string_app_cons. simpl. by rewrite IH, andb_assoc.
Qed.

Lemma encodeUnit_escaped (c : ascii) : escaped (encodeUnit c) = true.
Proof. destruct c as [[] [] [] [] [] [] [] []]; vm_compute; reflexivity. Qed.

Lemma encodeURIComponent_escaped (s : string) : escaped (encodeURIComponent s) = true.
Proof.
  induction s as [|a s IH]; [reflexivity|].
  pose proof (encodeUnit_escaped a) as Ha.
  simpl. unfold escaped in *. by rewrite allChars_app, IH, Ha.
Qed.

(** The requests an operation leaves behind: the token request, then, when
    the token has a string form, its own request, whatever the endpoint
    answers to it. *)
Lemma operation_sent {A : Type} nts c w tokRes rest token
    (mk : list (string * string) -> Request) (k : Response -> M A) :
  pending w = tokRes :: rest ->
  grants tokRes token ->
  (forall res w', sent (snd (k res w')) = sent w') ->
  url <$> sent (snd ((authHeaders nts c ≫= fun headers => fetch (mk headers) ≫= k) w))
  = ((url <$> sent w)
     ++ authEndpoint (this_oauth c)
        :: match toStringThrowing nts token with
           | Some bearer => [url (mk [("Authorization", ("Bearer " ++ bearer)%string)])]
           | None => []
           end)%list.
Proof.
  intros Hp Hg Hk.
  destruct (toStringThrowing nts token) as [bearer|] eqn:Hb.
  - rewrite (operation_run nts c w tokRes rest token Hp Hg bearer Hb).
    destruct rest as [|res rest']; [|rewrite Hk]; cbn [snd sent authorized];
      rewrite !fmap_app, <- app_assoc; reflexivity.
  - rewrite (operation_unconvertible nts c w tokRes rest token Hp Hg _ Hb).
    cbn [snd sent authorized]. by rewrite fmap_app.
Qed.

Lemma continuation_keeps_sent {A : Type} (what : string) (onBody : value -> A)
    (res : Response) (w : World) :
  sent (snd ((if negb (ok res) then
                text ← textOrEmpty res; throw (Error (failureMessage what res text))
              else data ← parseJson res; mret (onBody data)) w)) = sent w.
Proof.
  destruct (ok res); cbn [negb]; [|reflexivity].
  unfold parseJson. destruct (json res); reflexivity.
Qed.

(** C9. Construction takes one trailing slash off [baseUrl] (a [baseUrl] of the
    form [t/] becomes [t], whatever [t] ends with) and leaves a [baseUrl]
    without a trailing slash as it is; the application identifier is kept as
    given. After a successful token exchange every operation sends, besides
    the token request, at most one request, and sends it to
    [<baseUrl>/applications/<applicationId>/webhooks], followed for [enable],
    [disable] and [delete] by a slash and the webhook identifier
    percent-encoded; the request is sent whenever the token has a string form
    (a token without one, such as an object with an own [toString] entry,
    ends the operation before its request). An encoded identifier is made of
    unreserved characters and percent signs only. *)
Theorem operations_address_application nts config w tokRes rest token req id :
  pending w = tokRes :: rest ->
  grants tokRes token ->
  let c := new_client config in
  let webhooks := this_baseUrl c ++ "/applications/" ++ applicationId config ++ "/webhooks" in
  let addressed (to : string) (w' : World) :=
    url <$> sent w'
    = ((url <$> sent w)
       ++ authEndpoint (oauth config)
          :: match toStringThrowing nts token with
             | Some _ => [to]
             | None => []
             end)%list in
  (forall t, baseUrl config = t ++ "/" -> this_baseUrl c = t)
  /\ ((forall t, baseUrl config ≠ t ++ "/") -> this_baseUrl c = baseUrl config)
  /\ addressed webhooks (snd (createWebhook nts c req w))
  /\ addressed webhooks (snd (listWebhooks nts c w))
  /\ addressed (webhooks ++ "/" ++ encodeURIComponent id ++ "/enable")
       (snd (enableWebhook nts c id w))
  /\ addressed (webhooks ++ "/" ++ encodeURIComponent id ++ "/disable")
       (snd (disableWebhook nts c id w))
  /\ addressed (webhooks ++ "/" ++ encodeURIComponent id) (snd (deleteWebhook nts c id w))
  /\ escaped (encodeURIComponent id) = true.
Proof.
  intros Hp Hg c webhooks addressed.
  repeat match goal with |- _ /\ _ => split end.
  - intros t Ht. subst c. cbn [new_client this_baseUrl]. unfold stripTrailingSlash.
    by rewrite Ht, endsWithSlash_app, dropLast_app.
  - intros Hno. subst c. cbn [new_client this_baseUrl]. unfold stripTrailingSlash.
    destruct (Str.endsWithSlash (baseUrl config)) eqn:E; [|reflexivity].
    exfalso. eapply Hno. by apply endsWithSlash_inv.
  - unfold addressed, createWebhook.
    rewrite (operation_sent nts c w tokRes rest token _ _ Hp Hg
               (continuation_keeps_sent "Create webhook" normalizeWebhook)).
    destruct (toStringThrowing nts token); [|reflexivity].
    cbn [url]. unfold appUrl, webhooks. reflexivity.
  - unfold addressed, listWebhooks.
    rewrite (operation_sent nts c w tokRes rest token _ _ Hp Hg
               (continuation_keeps_sent "List webhooks"
                  (fun data => normalizeWebhook <$> listItems data))).
    destruct (toStringThrowing nts token); [|reflexivity].
    cbn [url]. unfold appUrl, webhooks. reflexivity.
  - unfold addressed, enableWebhook.
    rewrite (operation_sent nts c w tokRes rest token _ _ Hp Hg
               (continuation_keeps_sent "Enable webhook" normalizeWebhook)).
    destruct (toStringThrowing nts token); [|reflexivity].
    cbn [url]. unfold appUrl, webhooks. by rewrite !string_app_assoc.
  - unfold addressed, disableWebhook.
    rewrite (operation_sent nts c w tokRes rest token _ _ Hp Hg
               (continuation_keeps_sent "Disable webhook" normalizeWebhook)).
    destruct (toStringThrowing nts token); [|reflexivity].
    cbn [url]. unfold appUrl, webhooks. by rewrite !string_app_assoc.
  - unfold addressed, deleteWebhook.
    rewrite (operation_sent nts c w tokRes rest token _ _ Hp Hg).
    + destruct (toStringThrowing nts token); [|reflexivity].
      cbn [url]. unfold appUrl, webhooks. by rewrite !string_app_assoc.
    + intros res w'. destruct (ok res); reflexivity.
  - apply encodeURIComponent_escaped.
Qed.

Lemma operations_address_application_witness :
  pending (worldOf [tokenResponse; notFound]) = [tokenResponse; notFound]
  /\ url <$> sent (snd (enableWebhook printNumber (new_client demoConfig) "a/b"
                          (worldOf [tokenResponse; notFound])))
     = ["https://id.carerix.io/token";
        "https://api.carerix.io/webhooks/v1/applications/app-1/webhooks/a%2Fb/enable"].
Proof.
  split; [reflexivity|].
  exact (proj1 (proj2 (proj2 (proj2 (proj2
    (operations_address_application printNumber demoConfig (worldOf [tokenResponse; notFound])
       tokenResponse [notFound] (VStr "tok-1") demoRequest "a/b"
       eq_refl tokenResponse_grants)))))).
Defined.

(** ** Theorems: the argument parser *)

#[local] Open Scope list_scope.

Lemma includes_false (t : string) (args : list string) :
  t ∉ args -> includes t args = false.
Proof.
  unfold includes. induction args as [|a args IH]; [reflexivity|].
  intros Hn. apply not_elem_of_cons in Hn as [Hne Hn]. simpl.
  rewrite (IH Hn), orb_false_r. by apply String.eqb_neq.
Qed.

Lemma includes_true (t : string) (args : list string) :
  t ∈ args -> includes t args = true.
Proof.
  unfold includes. induction 1 as [a args|a b args _ IH]; simpl.
  - by rewrite String.eqb_refl.
  - rewrite IH. apply orb_true_r.
Qed.

(** C7. For every argument list that is empty or has [--help] or [-h] at any
    position, [parseArgs] gives the usage result: no command name, no
    env-path override, no parameters and an empty flag dictionary, whatever
    the other tokens are. *)
Theorem parseArgs_help_or_empty (node script : string) (args : list string) :
  args = [] \/ "--help" ∈ args \/ "-h" ∈ args ->
  parseArgs (node :: script :: args)
  = {| envFile := None; command := None; params := []; flags := ∅ |}.
Proof.
  intros H. unfold parseArgs.
  change (drop 2 (node :: script :: args)) with args. cbv zeta.
  destruct H as [-> | [H | H]]; [reflexivity | |].
  - by rewrite (includes_true _ _ H), orb_true_r.
  - by rewrite (includes_true _ _ H), orb_true_r.
Qed.

Lemma parseArgs_help_or_empty_witness :
  parseArgs ["node"; "cli.js"; "create"; "--url"; "--help"; "-x"; "pos"]
  = {| envFile := None; command := None; params := []; flags := ∅ |}.
Proof.
  apply parseArgs_help_or_empty. right. left.
  apply (bool_decide_unpack _). reflexivity.
Defined.

Lemma globalFlags_envTokens (paths : list string) (cmd : string) (rest : list string)
    (env : option string) :
  cmd ≠ "--env" ->
  globalFlags (envTokens paths ++ cmd :: rest) env
  = (match last paths with Some x => Some x | None => env end, cmd :: rest).
Proof.
  intros Hcmd. revert env. induction paths as [|x paths IH]; intros env.
  - cbn [envTokens flat_map app last]. apply String.eqb_neq in Hcmd.
    destruct rest; simpl; by rewrite ?Hcmd.
  - change (envTokens (x :: paths) ++ cmd :: rest)
      with ("--env" :: x :: (envTokens paths ++ cmd :: rest)).
    cbn [globalFlags]. rewrite String.eqb_refl, IH.
    destruct paths as [|y paths]; [reflexivity|].
    cbn [last]. destruct (last (y :: paths)) eqn:E; [reflexivity|].
    by apply last_None in E.
Qed.

(** Past the help check and the first loop: the command is the first token
    that is not a leading [--env] pair, and the rest goes to the second
    loop. *)
Lemma parseArgs_command (node script : string) (paths : list string) (cmd : string)
    (rest : list string) :
  noHelp (envTokens paths ++ cmd :: rest) ->
  cmd ≠ "--env" ->
  parseArgs (node :: script :: envTokens paths ++ cmd :: rest)
  = {| envFile := last paths;
       command := Some cmd;
       params := snd (commandFlags rest ∅ []);
       flags := fst (commandFlags rest ∅ []) |}.
Proof.
  intros [Hh1 Hh2] Hcmd. unfold parseArgs.
  change (drop 2 (node :: script :: envTokens paths ++ cmd :: rest))
    with (envTokens paths ++ cmd :: rest). cbv zeta.
  rewrite (includes_false _ _ Hh1), (includes_false _ _ Hh2), !orb_false_r.
  rewrite length_app. cbn [length]. rewrite Nat.add_succ_r. cbn [Nat.eqb].
  rewrite (globalFlags_envTokens _ _ _ None Hcmd).
  destruct (commandFlags rest ∅ []) as [f p]. cbn [fst snd].
  by destruct (last paths).
Qed.

Lemma ensureArray_push (k v : string) (f : gmap string FlagValue) :
  ensureArray (push k v f) k = ensureArray f k ++ [v].
Proof. unfold ensureArray at 1, push. by rewrite lookup_insert_eq. Qed.

Lemma commandFlags_event (short : bool) (v : string) (rest : list string)
    (f : gmap string FlagValue) (p : list string) :
  commandFlags ((if short then "-e" else "--event") :: v :: rest) f p
  = commandFlags rest (push "event" v f) p.
Proof. destruct short; reflexivity. Qed.

Lemma commandFlags_eventTokens (evs : list (bool * string)) (rest : list string)
    (f : gmap string FlagValue) (p : list string) :
  commandFlags (eventTokens evs ++ rest) f p
  = commandFlags rest
      match evs with
      | [] => f
      | _ => <["event" := FArr (ensureArray f "event" ++ (snd <$> evs))]> f
      end p.
Proof.
  revert f. induction evs as [|[short v] evs IH]; intros f; [reflexivity|].
  change (eventTokens ((short, v) :: evs) ++ rest)
    with ((if short then "-e" else "--event") :: v :: (eventTokens evs ++ rest)).
  rewrite commandFlags_event, IH. f_equal.
  destruct evs as [|ev evs]; [reflexivity|].
  rewrite ensureArray_push. unfold push. rewrite insert_insert_eq.
  by rewrite <- app_assoc.
Qed.

(** C6. The argument list of the specification's example parses to the command
    [create], the flags [url], [event] (both values, left to right) and
    [header], and no parameter. In general the second loop, reading a run of
    [--event v] and [-e v] pairs in any state, leaves under the key [event]
    the sequence that was there (a new one when the key held no sequence)
    with the values of the run appended in their order, repeated values
    included; and a command line made of a command and such pairs only
    yields exactly these values under [event]. *)
Theorem parseArgs_events (node script : string) :
  parseArgs (node :: script ::
             ["create"; "--url"; "https://e/x"; "--event"; "a:created";
              "--event"; "b:updated"; "--header"; "k=v"])
  = {| envFile := None;
       command := Some "create";
       params := [];
       flags := {[ "url" := FStr "https://e/x";
                   "event" := FArr ["a:created"; "b:updated"];
                   "header" := FArr ["k=v"] ]} |}
  /\ (forall evs rest f p,
        commandFlags (eventTokens evs ++ rest) f p
        = commandFlags rest
            match evs with
            | [] => f
            | _ => <["event" := FArr (ensureArray f "event" ++ (snd <$> evs))]> f
            end p)
  /\ (forall cmd evs,
        noHelp (cmd :: eventTokens evs) ->
        cmd ≠ "--env" ->
        parseArgs (node :: script :: cmd :: eventTokens evs)
        = {| envFile := None;
             command := Some cmd;
             params := [];
             flags := match evs with
                      | [] => ∅
                      | _ => {[ "event" := FArr (snd <$> evs) ]}
                      end |}).
Proof.
  split; [|split].
  - unfold parseArgs. vm_compute. reflexivity.
  - apply commandFlags_eventTokens.
  - intros cmd evs Hh Hcmd.
    pose proof (parseArgs_command node script [] cmd (eventTokens evs) Hh Hcmd) as Hc.
    cbn [envTokens flat_map app] in Hc. rewrite Hc.
    pose proof (commandFlags_eventTokens evs [] ∅ []) as H.
    rewrite app_nil_r in H. rewrite H. cbn [commandFlags fst snd last].
    destruct evs; reflexivity.
Qed.

Lemma parseArgs_events_witness :
  parseArgs ["node"; "cli.js"; "create"; "-e"; "a:created"; "--event"; "-x"; "-e"; "a:created"]
  = {| envFile := None;
       command := Some "create";
       params := [];
       flags := {[ "event" := FArr ["a:created"; "-x"; "a:created"] ]} |}.
Proof.
  apply (proj2 (proj2 (parseArgs_events "node" "cli.js")) "create"
           [(true, "a:created"); (false, "-x"); (true, "a:created")]).
  - split; apply (bool_decide_unpack _); reflexivity.
  - apply (bool_decide_unpack _). reflexivity.
Defined.

Lemma takesValue_true (a : string) :
  takesValue a = true ->
  a = "--env" \/ a = "--url" \/ a = "--event" \/ a = "-e" \/ a = "--header" \/ a = "-H".
Proof.
  intros H. apply bool_decide_eq_true in H.
  repeat (apply elem_of_cons in H as [-> | H]; [tauto|]).
  by apply elem_of_nil in H.
Qed.

Lemma takesValue_false (a : string) :
  takesValue a = false ->
  String.eqb a "--env" = false /\ String.eqb a "--url" = false
  /\ String.eqb a "--event" = false /\ String.eqb a "-e" = false
  /\ String.eqb a "--header" = false /\ String.eqb a "-H" = false.
Proof.
  intros H. apply bool_decide_eq_false in H.
  repeat split; apply String.eqb_neq; intros ->; apply H;
    apply (bool_decide_unpack _); reflexivity.
Qed.

(** A token that takes no value is passed alone. *)
Lemma commandFlags_plain (a : string) (rest : list string)
    (f : gmap string FlagValue) (p : list string) :
  takesValue a = false ->
  commandFlags (a :: rest) f p
  = commandFlags rest (fst (plainToken a f p)) (snd (plainToken a f p)).
Proof.
  intros H. apply takesValue_false in H as (H1 & H2 & H3 & H4 & H5 & H6).
  cbn [commandFlags]. rewrite H1, H2, H3, H4, H5, H6. cbn [orb].
  destruct (plainToken a f p) as [f' p']. by destruct rest.
Qed.

(** A flag that takes a value is passed with the token after it, whatever that
    token is. *)
Lemma commandFlags_value (a u : string) (rest : list string)
    (f : gmap string FlagValue) (p : list string) :
  takesValue a = true ->
  commandFlags (a :: u :: rest) f p = commandFlags rest (withValue a u f) p.
Proof.
  intros H. apply takesValue_true in H.
  destruct H as [-> | [-> | [-> | [-> | [-> | ->]]]]]; reflexivity.
Qed.

Lemma commandFlags_app (pre post : list string) :
  wholeTokens pre = true ->
  forall f p,
    commandFlags (pre ++ post) f p
    = commandFlags post (fst (commandFlags pre f p)) (snd (commandFlags pre f p)).
Proof.
  induction pre as [pre IH] using (induction_ltof1 _ (@length string)).
  unfold ltof in IH. intros Hw f p.
  destruct pre as [|a rest]; [reflexivity|].
  cbn [wholeTokens] in Hw. destruct (takesValue a) eqn:Ha.
  - destruct rest as [|u rest]; [discriminate|].
    change ((a :: u :: rest) ++ post) with (a :: u :: (rest ++ post)).
    rewrite !(commandFlags_value _ _ _ _ _ Ha).
    apply IH; [cbn [length]; lia | exact Hw].
  - change ((a :: rest) ++ post) with (a :: (rest ++ post)).
    rewrite !(commandFlags_plain _ _ _ _ Ha).
    apply IH; [cbn [length]; lia | exact Hw].
Qed.

Lemma noHelp_cons (a : string) (l : list string) :
  noHelp (a :: l) <-> (a ≠ "--help" /\ a ≠ "-h") /\ noHelp l.
Proof.
  unfold noHelp. rewrite !not_elem_of_cons. intuition congruence.
Qed.

Lemma noHelp_app (l1 l2 : list string) : noHelp (l1 ++ l2) <-> noHelp l1 /\ noHelp l2.
Proof.
  unfold noHelp. rewrite !not_elem_of_app. tauto.
Qed.

(** C8. On an argument list without a help token, where [--env v] stands after
    the command name as a flag of the second loop (the tokens [pre] between
    the command and [--env] are whole tokens, so [--env] is not itself the
    value of a flag before it): the result is the one of the list without
    the pair, so [v] reaches neither the flags nor the parameters; the
    env-path override is the one the leading [--env] pairs gave, or none; the
    command is unchanged. And a flag of the second loop that takes a value is
    passed together with the token after it, whatever that token looks like:
    the loop goes on behind the value. *)
Theorem parseArgs_env_after_command (node script : string) (paths : list string)
    (cmd : string) (pre : list string) (v : string) (post : list string) :
  noHelp (envTokens paths ++ cmd :: pre ++ "--env" :: v :: post) ->
  cmd ≠ "--env" ->
  wholeTokens pre = true ->
  let r := parseArgs (node :: script :: envTokens paths ++ cmd :: pre ++ "--env" :: v :: post) in
  r = parseArgs (node :: script :: envTokens paths ++ cmd :: pre ++ post)
  /\ envFile r = last paths
  /\ command r = Some cmd
  /\ (forall a u rest f p,
        takesValue a = true ->
        commandFlags (a :: u :: rest) f p = commandFlags rest (withValue a u f) p).
Proof.
  intros Hh Hcmd Hw r. subst r.
  assert (noHelp (envTokens paths ++ cmd :: pre ++ post)) as Hh'.
  { revert Hh. rewrite !noHelp_app, !noHelp_cons, !noHelp_app, !noHelp_cons. tauto. }
  rewrite (parseArgs_command _ _ _ _ _ Hh Hcmd), (parseArgs_command _ _ _ _ _ Hh' Hcmd).
  rewrite !(commandFlags_app pre _ Hw).
  cbn [envFile command].
  split; [|split; [|split]]; try reflexivity.
  intros a u rest f p Ha. by apply commandFlags_value.
Qed.

Lemma parseArgs_env_after_command_witness :
  parseArgs ["node"; "cli.js"; "--env"; "a.env"; "enable"; "--url"; "u"; "--env"; "b.env"; "42"]
  = {| envFile := Some "a.env"; command := Some "enable"; params := ["42"];
       flags := {[ "url" := FStr "u" ]} |}.
Proof.
  refine (eq_trans (proj1
    (parseArgs_env_after_command "node" "cli.js" ["a.env"] "enable" ["--url"; "u"] "b.env" ["42"]
       _ _ eq_refl)) _).
  - split; apply (bool_decide_unpack _); reflexivity.
  - apply (bool_decide_unpack _). reflexivity.
  - vm_compute. reflexivity.
Defined.

Lemma fallbackNames_inv (a k : string) :
  (a, k) ∈ fallbackNames ->
  (a = "--url" /\ k = "url") \/ (a = "--event" /\ k = "event") \/ (a = "-e" /\ k = "e")
  \/ (a = "--header" /\ k = "header") \/ (a = "-H" /\ k = "H").
Proof.
  intros H. unfold fallbackNames in H.
  repeat (apply elem_of_cons in H as [[= -> ->] | H]; [tauto|]).
  by apply elem_of_nil in H.
Qed.

(** The second loop on a value-taking flag that is the last token. *)
Lemma commandFlags_last (a k : string) (f : gmap string FlagValue) (p : list string) :
  (a, k) ∈ fallbackNames ->
  commandFlags [a] f p = (<[k := FBool true]> f, p).
Proof.
  intros H. apply fallbackNames_inv in H.
  destruct H as [[-> ->] | [[-> ->] | [[-> ->] | [[-> ->] | [-> ->]]]]]; reflexivity.
Qed.

(** C10 (as the code has it). On an argument list without a help token whose
    last token is [--url], [--event], [-e], [--header] or [-H], and in which
    that token is read as a token of the second loop (it stands after the
    command name, and the tokens between the command and it are whole tokens,
    so it is not the value of the flag before it): the token is stored as a
    boolean flag under its name without dashes, with value [true], over
    whatever the key held; the rest of the result is the one of the list
    without the token. A final [--url] leaves [url = true], and a final [-e]
    leaves [e = true] and the [event] sequence as it was. *)
Theorem parseArgs_trailing_value_flag (node script : string) (paths : list string)
    (cmd : string) (pre : list string) (a k : string) :
  (a, k) ∈ fallbackNames ->
  noHelp (envTokens paths ++ cmd :: pre) ->
  cmd ≠ "--env" ->
  wholeTokens pre = true ->
  let r := parseArgs (node :: script :: envTokens paths ++ cmd :: pre ++ [a]) in
  let r0 := parseArgs (node :: script :: envTokens paths ++ cmd :: pre) in
  flags r = <[k := FBool true]> (flags r0)
  /\ params r = params r0
  /\ command r = Some cmd
  /\ envFile r = envFile r0
  /\ flags r !! k = Some (FBool true)
  /\ (a = "-e" -> flags r !! "event" = flags r0 !! "event").
Proof.
  intros Hak Hh Hcmd Hw r r0.
  assert (noHelp (envTokens paths ++ cmd :: pre ++ [a])) as Hh'.
  { assert (noHelp [a]) as Ha.
    { apply fallbackNames_inv in Hak.
      split; intros Hin; apply list_elem_of_singleton in Hin; intuition congruence. }
    change (envTokens paths ++ cmd :: pre ++ [a])
      with (envTokens paths ++ (cmd :: pre) ++ [a]).
    rewrite app_assoc. apply noHelp_app. by split. }
  assert (flags r = <[k := FBool true]> (flags r0) /\ params r = params r0) as [Hf Hp].
  { subst r r0.
    rewrite (parseArgs_command _ _ _ _ _ Hh Hcmd), (parseArgs_command _ _ _ _ _ Hh' Hcmd).
    cbn [flags params].
    rewrite (commandFlags_app pre [a] Hw), (commandFlags_last a k _ _ Hak). done. }
  split; [exact Hf|]. split; [exact Hp|].
  split; [|split; [|split]].
  - subst r. by rewrite (parseArgs_command _ _ _ _ _ Hh' Hcmd).
  - subst r r0.
    by rewrite (parseArgs_command _ _ _ _ _ Hh Hcmd), (parseArgs_command _ _ _ _ _ Hh' Hcmd).
  - rewrite Hf. apply lookup_insert_eq.
  - intros ->. apply fallbackNames_inv in Hak.
    assert (k = "e") as -> by intuition congruence.
    rewrite Hf. by apply lookup_insert_ne.
Qed.

Lemma parseArgs_trailing_value_flag_witness :
  flags (parseArgs ["node"; "cli.js"; "create"; "--url"; "https://e/x"; "--url"])
  = {[ "url" := FBool true ]}.
Proof.
  refine (eq_trans (proj1
    (parseArgs_trailing_value_flag "node" "cli.js" [] "create" ["--url"; "https://e/x"]
       "--url" "url" _ _ _ eq_refl)) _).
  - apply (bool_decide_unpack _). reflexivity.
  - split; apply (bool_decide_unpack _); reflexivity.
  - apply (bool_decide_unpack _). reflexivity.
  - vm_compute. reflexivity.
Defined.

(** C10 (as stated) fails. In [list --url --url] the last token is [--url] and
    nothing follows it; it is the value of the [--url] before it, so [url]
    holds the string and no boolean. In [--url] alone the token is the
    command name, and no flag is stored. *)
Lemma parseArgs_trailing_flag_as_value_counterexample :
  (last ["list"; "--url"; "--url"] = Some "--url"
   /\ parseArgs ["node"; "cli.js"; "list"; "--url"; "--url"]
      = {| envFile := None; command := Some "list"; params := [];
           flags := {[ "url" := FStr "--url" ]} |}
   /\ ({[ "url" := FStr "--url" ]} : gmap string FlagValue) !! "url" ≠ Some (FBool true))
  /\ (last ["--url"] = Some "--url"
      /\ parseArgs ["node"; "cli.js"; "--url"]
         = {| envFile := None; command := Some "--url"; params := []; flags := ∅ |}
      /\ (∅ : gmap string FlagValue) !! "url" ≠ Some (FBool true)).
Proof. repeat split; try discriminate; vm_compute; reflexivity. Qed.

(** ** Theorems: header values *)

Lemma noEquals_cons (a : ascii) (s : string) :
  noEquals (String a s) <-> a ≠ "="%char /\ noEquals s.
Proof.
  unfold noEquals. cbn [String.list_ascii_of_string].
  rewrite not_elem_of_cons. intuition congruence.
Qed.

Lemma indexOf_noEquals (v : string) : noEquals v -> Str.indexOf "="%char v = None.
Proof.
  induction v as [|a v IH]; [reflexivity|].
  intros [Ha Hv]%noEquals_cons. cbn [Str.indexOf].
  apply Ascii.eqb_neq in Ha. by rewrite Ha, (IH Hv).
Qed.

Lemma indexOf_headerToken (pre post : string) :
  noEquals pre -> Str.indexOf "="%char (headerToken pre post) = Some (String.length pre).
Proof.
  unfold headerToken. induction pre as [|a pre IH]; [reflexivity|].
  intros [Ha Hpre]%noEquals_cons. rewrite string_app_cons. cbn [Str.indexOf String.length].
  apply Ascii.eqb_neq in Ha. by rewrite Ha, (IH Hpre).
Qed.

Lemma sliceTo_headerToken (pre post : string) :
  Str.sliceTo (String.length pre) (headerToken pre post) = pre.
Proof.
  unfold headerToken. induction pre as [|a pre IH]; [reflexivity|].
  rewrite string_app_cons. cbn [Str.sliceTo String.length]. by rewrite IH.
Qed.

Lemma sliceFrom_headerToken (pre post : string) :
  Str.sliceFrom (String.length pre + 1) (headerToken pre post) = post.
Proof.
  unfold headerToken. induction pre as [|a pre IH]; [reflexivity|].
  rewrite string_app_cons. cbn [Str.sliceFrom String.length Nat.add]. exact IH.
Qed.

(** Every token is of one of the two kinds. *)
Lemma headerToken_cases (v : string) :
  noEquals v \/ exists pre post, v = headerToken pre post /\ noEquals pre.
Proof.
  induction v as [|a v IH].
  - left. unfold noEquals. apply not_elem_of_nil.
  - destruct (decide (a = "="%char)) as [->|Ha].
    + right. exists "", v. split; [reflexivity|]. unfold noEquals. apply not_elem_of_nil.
    + destruct IH as [Hv | (pre & post & -> & Hpre)].
      * left. by apply noEquals_cons.
      * right. exists (String a pre), post. split; [reflexivity|]. by apply noEquals_cons.
Qed.

Lemma parseHeaders_loop_token (pre post : string) (arr : list string)
    (out : list WebhookHeader) :
  noEquals pre ->
  parseHeaders_loop (headerToken pre post :: arr) out
  = if String.eqb (Str.trim pre) "" then
      Thrown (Error ("Invalid --header value: " ++ headerToken pre post
                     ++ ". Name is empty.")%string)
    else parseHeaders_loop arr (out ++ [mkWebhookHeader (Str.trim pre) (Str.trim post)]).
Proof.
  intros Hpre. cbn [parseHeaders_loop].
  by rewrite (indexOf_headerToken _ _ Hpre), sliceTo_headerToken, sliceFrom_headerToken.
Qed.

Lemma parseHeaders_loop_good (goods : list (string * string)) (arr : list string)
    (out : list WebhookHeader) :
  Forall goodToken goods ->
  parseHeaders_loop ((tokenOf <$> goods) ++ arr) out
  = parseHeaders_loop arr (out ++ (headerOf <$> goods)).
Proof.
  intros Hg. revert out. induction Hg as [|[pre post] goods [Hpre Hname] _ IH]; intros out.
  - by rewrite app_nil_r.
  - cbn [fmap list_fmap app]. unfold tokenOf at 1. cbn [fst snd] in *.
    rewrite (parseHeaders_loop_token _ _ _ _ Hpre).
    apply String.eqb_neq in Hname. rewrite Hname.
    change (list_fmap _ _ tokenOf goods) with (tokenOf <$> goods).
    rewrite IH, <- app_assoc. reflexivity.
Qed.

(** Trimming, against the description of white space: [trim] takes a blank
    prefix and a blank suffix off a tight string, and every string is a tight
    string between two blank ones. *)
Lemma isWhite_white (c : ascii) : Str.isWhite c = white c.
Proof. destruct c as [[] [] [] [] [] [] [] []]; vm_compute; reflexivity. Qed.

Lemma blank_cons (c : ascii) (s : string) :
  blank (String c s) = true <-> white c = true /\ blank s = true.
Proof. unfold blank. cbn [allChars]. apply andb_true_iff. Qed.

Lemma trimStart_blank (l s : string) :
  blank l = true -> Str.trimStart (l ++ s)%string = Str.trimStart s.
Proof.
  induction l as [|c l IH]; [reflexivity|].
  intros [Hc Hl]%blank_cons. rewrite string_app_cons. cbn [Str.trimStart].
  by rewrite isWhite_white, Hc, IH.
Qed.

Lemma trimStart_all_blank (r : string) : blank r = true -> Str.trimStart r = "".
Proof.
  induction r as [|c r IH]; [reflexivity|].
  intros [Hc Hr]%blank_cons. cbn [Str.trimStart]. by rewrite isWhite_white, Hc, IH.
Qed.

Lemma trimEnd_all_blank (r : string) : blank r = true -> Str.trimEnd r = "".
Proof.
  induction r as [|c r IH]; [reflexivity|].
  intros [Hc Hr]%blank_cons. cbn [Str.trimEnd]. by rewrite (IH Hr), isWhite_white, Hc.
Qed.

Lemma trimEnd_blank (s r : string) :
  s ≠ "" -> endsWhite s = false -> blank r = true -> Str.trimEnd (s ++ r)%string = s.
Proof.
  intros Hs He Hr. induction s as [|c s IH]; [done|].
  rewrite string_app_cons. cbn [Str.trimEnd]. destruct s as [|d s].
  - change ("" ++ r)%string with r. rewrite (trimEnd_all_blank _ Hr).
    cbn [endsWhite] in He. by rewrite isWhite_white, He.
  - rewrite IH by done. reflexivity.
Qed.

Lemma trim_blank (l core r : string) :
  blank l = true -> blank r = true -> tight core = true ->
  Str.trim (l ++ core ++ r)%string = core.
Proof.
  intros Hl Hr Hcore. unfold Str.trim. rewrite (trimStart_blank _ _ Hl).
  destruct core as [|c core].
  - change ("" ++ r)%string with r. by rewrite (trimStart_all_blank _ Hr).
  - cbn [tight] in Hcore. apply andb_true_iff in Hcore as [Hc He].
    apply negb_true_iff in Hc, He.
    rewrite string_app_cons. cbn [Str.trimStart]. rewrite isWhite_white, Hc.
    rewrite <- string_app_cons. by apply trimEnd_blank.
Qed.

Lemma trimStart_prefix (s : string) :
  exists l, blank l = true /\ s = (l ++ Str.trimStart s)%string.
Proof.
  induction s as [|c s (l & Hl & IH)]; [by exists ""|].
  cbn [Str.trimStart]. rewrite isWhite_white. destruct (white c) eqn:Hc.
  - exists (String c l). split; [by apply blank_cons|].
    by rewrite string_app_cons, <- IH.
  - by exists "".
Qed.

Lemma trimEnd_suffix (s : string) :
  exists r, blank r = true /\ s = (Str.trimEnd s ++ r)%string.
Proof.
  induction s as [|c s (r & Hr & IH)]; [by exists ""|].
  cbn [Str.trimEnd]. destruct (Str.trimEnd s) as [|d t].
  - change ("" ++ r)%string with r in IH. subst s.
    rewrite isWhite_white. destruct (white c) eqn:Hc.
    + exists (String c r). split; [by apply blank_cons | reflexivity].
    + exists r. split; [exact Hr | reflexivity].
  - exists r. split; [exact Hr|]. by rewrite string_app_cons, <- IH.
Qed.

Lemma trimEnd_endsWhite (s : string) : endsWhite (Str.trimEnd s) = false.
Proof.
  induction s as [|c s IH]; [reflexivity|].
  cbn [Str.trimEnd]. destruct (Str.trimEnd s) as [|d t].
  - rewrite isWhite_white. destruct (white c) eqn:Hc; [reflexivity | exact Hc].
  - exact IH.
Qed.

Lemma trim_tight (s : string) : tight (Str.trim s) = true.
Proof.
  unfold Str.trim.
  assert (match Str.trimStart s with
          | "" => True
          | String c _ => white c = false
          end) as Hhead.
  { induction s as [|c s IH]; [exact I|].
    cbn [Str.trimStart]. rewrite isWhite_white.
    destruct (white c) eqn:Hc; [exact IH | exact Hc]. }
  pose proof (trimEnd_endsWhite (Str.trimStart s)) as He.
  destruct (Str.trimStart s) as [|c t]; [reflexivity|].
  cbn [Str.trimEnd] in *. destruct (Str.trimEnd t) as [|d u].
  - rewrite isWhite_white, Hhead in *. cbn [tight]. by rewrite Hhead, He.
  - cbn [tight]. by rewrite Hhead, He.
Qed.

Lemma trim_between (s : string) :
  exists l r, blank l = true /\ blank r = true /\ s = (l ++ Str.trim s ++ r)%string.
Proof.
  destruct (trimStart_prefix s) as (l & Hl & Hs).
  destruct (trimEnd_suffix (Str.trimStart s)) as (r & Hr & Ht).
  exists l, r. split; [exact Hl|]. split; [exact Hr|].
  unfold Str.trim. by rewrite <- Ht.
Qed.

Lemma noEquals_app (a b : string) : noEquals (a ++ b)%string <-> noEquals a /\ noEquals b.
Proof.
  induction a as [|c a IH].
  - change ("" ++ b)%string with b. split; [|tauto].
    intros H. split; [apply not_elem_of_nil | exact H].
  - rewrite string_app_cons, !noEquals_cons, IH. tauto.
Qed.

Lemma noEquals_blank (l : string) : blank l = true -> noEquals l.
Proof.
  induction l as [|c l IH]; [intros _; apply not_elem_of_nil|].
  intros [Hc Hl]%blank_cons. apply noEquals_cons. split; [|by apply IH].
  intros ->. vm_compute in Hc. discriminate Hc.
Qed.

(** C5. For every sequence of header tokens: as long as each token has an
    equals sign and a name (the part before the first equals sign, trimmed)
    that is not empty, the headers are the trimmed names with the trimmed
    parts after the first equals sign, in order; the first token without an
    equals sign, or with an empty trimmed name, throws an [Error] whose
    message quotes that token. An absent value, a boolean, the empty string
    and the empty sequence give [undefined], and a single string is read as
    the sequence of that one token. Every token is of one of the kinds
    named. Trimming takes the white space (TAB, LF, VT, FF, CR, SP, NBSP) off
    both ends and leaves the rest: a token whose sides are a name [n] and a
    value [v], each between blank strings, gives the header of [n] and [v]
    themselves; and every string is its trimmed form between two blank
    strings, the trimmed form neither starting nor ending with white
    space. *)
Theorem parseHeaders_tokens :
  (forall goods, Forall goodToken goods -> goods ≠ [] ->
     parseHeaders (Some (FArr (tokenOf <$> goods))) = Returned (Some (headerOf <$> goods)))
  /\ (forall goods v rest, Forall goodToken goods -> noEquals v ->
     parseHeaders (Some (FArr ((tokenOf <$> goods) ++ v :: rest)))
     = Thrown (Error ("Invalid --header value: " ++ v ++ ". Expected key=value.")%string))
  /\ (forall goods pre post rest, Forall goodToken goods ->
     noEquals pre -> Str.trim pre = "" ->
     parseHeaders (Some (FArr ((tokenOf <$> goods) ++ headerToken pre post :: rest)))
     = Thrown (Error ("Invalid --header value: " ++ headerToken pre post
                      ++ ". Name is empty.")%string))
  /\ (parseHeaders None = Returned None
      /\ (forall b, parseHeaders (Some (FBool b)) = Returned None)
      /\ parseHeaders (Some (FStr "")) = Returned None
      /\ parseHeaders (Some (FArr [])) = Returned None)
  /\ (forall s, s ≠ "" -> parseHeaders (Some (FStr s)) = parseHeaders (Some (FArr [s])))
  /\ (forall v, noEquals v \/ exists pre post, v = headerToken pre post /\ noEquals pre)
  /\ (forall l1 n r1 l2 v r2,
        blank l1 = true -> blank r1 = true -> blank l2 = true -> blank r2 = true ->
        tight n = true -> tight v = true -> n ≠ "" -> noEquals n ->
        parseHeaders (Some (FArr [headerToken (l1 ++ n ++ r1) (l2 ++ v ++ r2)%string]))
        = Returned (Some [mkWebhookHeader n v]))
  /\ (forall s, tight (Str.trim s) = true
        /\ exists l r, blank l = true /\ blank r = true /\ s = (l ++ Str.trim s ++ r)%string).
Proof.
  split; [|split; [|split; [|split; [|split; [|split; [|split]]]]]].
  - intros goods Hg Hne. unfold parseHeaders. cbn [flagTruthy negb orb].
    pose proof (parseHeaders_loop_good goods [] [] Hg) as H.
    rewrite app_nil_r in H. rewrite H. cbn [parseHeaders_loop app].
    destruct goods; [done | reflexivity].
  - intros goods v rest Hg Hv. unfold parseHeaders. cbn [flagTruthy negb orb].
    rewrite (parseHeaders_loop_good goods _ [] Hg). cbn [parseHeaders_loop].
    by rewrite (indexOf_noEquals _ Hv).
  - intros goods pre post rest Hg Hpre Hname. unfold parseHeaders. cbn [flagTruthy negb orb].
    rewrite (parseHeaders_loop_good goods _ [] Hg), (parseHeaders_loop_token _ _ _ _ Hpre).
    by rewrite Hname.
  - repeat split. by intros [].
  - intros s Hs. unfold parseHeaders. cbn [flagTruthy].
    apply String.eqb_neq in Hs. by rewrite Hs.
  - apply headerToken_cases.
  - intros l1 n r1 l2 v r2 Hl1 Hr1 Hl2 Hr2 Hn Hv Hne Hnoeq.
    assert (goodToken ((l1 ++ n ++ r1)%string, (l2 ++ v ++ r2)%string)) as Hgood.
    { split; cbn [fst].
      - apply noEquals_app. split; [by apply noEquals_blank|].
        apply noEquals_app. split; [exact Hnoeq | by apply noEquals_blank].
      - by rewrite (trim_blank _ _ _ Hl1 Hr1 Hn). }
    unfold parseHeaders. cbn [flagTruthy negb orb].
    pose proof (parseHeaders_loop_good [((l1 ++ n ++ r1)%string, (l2 ++ v ++ r2)%string)]
                  [] [] (Forall_cons_2 _ _ _ Hgood (Forall_nil_2 _))) as H.
    cbn [fmap list_fmap app] in H. unfold tokenOf, headerOf in H. cbn [fst snd] in H.
    rewrite H.
    cbn [parseHeaders_loop length Nat.eqb].
    by rewrite (trim_blank _ _ _ Hl1 Hr1 Hn), (trim_blank _ _ _ Hl2 Hr2 Hv).
  - intros s. split; [apply trim_tight | apply trim_between].
Qed.

Lemma parseHeaders_tokens_witness :
  parseHeaders (Some (FArr ["x-api-key=secret"]))
  = Returned (Some [mkWebhookHeader "x-api-key" "secret"])
  /\ parseHeaders (Some (FArr ["x-api-key=secret"; "badtoken"]))
     = Thrown (Error "Invalid --header value: badtoken. Expected key=value.")
  /\ parseHeaders (Some (FArr ["=value"]))
     = Thrown (Error "Invalid --header value: =value. Name is empty.")
  /\ parseHeaders (Some (FArr ["  x-api key = my secret "; "a=b"]))
     = Returned (Some [mkWebhookHeader "x-api key" "my secret"; mkWebhookHeader "a" "b"])
  /\ parseHeaders (Some (FArr [(String "009" " accept = " ++ String "160" "a=b")%string]))
     = Returned (Some [mkWebhookHeader "accept" "a=b"]).
Proof.
  assert (Forall goodToken [("x-api-key", "secret")]) as Hgood.
  { constructor; [|constructor]. split; [|discriminate].
    apply (bool_decide_unpack _). reflexivity. }
  assert (Forall goodToken [("  x-api key ", " my secret "); ("a", "b")]) as Hblanks.
  { constructor; [|constructor; [|constructor]];
      (split; [apply (bool_decide_unpack _); reflexivity | discriminate]). }
  assert ([("  x-api key ", " my secret "); ("a", "b")] ≠ []) as Hne by discriminate.
  assert (noEquals "accept") as Hnoeq by (apply (bool_decide_unpack _); reflexivity).
  assert ("accept" ≠ "") as Hname by discriminate.
  split; [|split; [|split; [|split]]].
  - exact (proj1 parseHeaders_tokens [("x-api-key", "secret")] Hgood
             (fun H => eq_ind [("x-api-key", "secret")]
                         (fun l => match l with [] => False | _ => True end) I [] H)).
  - apply (proj1 (proj2 parseHeaders_tokens) [("x-api-key", "secret")] "badtoken" [] Hgood).
    apply (bool_decide_unpack _). reflexivity.
  - apply (proj1 (proj2 (proj2 parseHeaders_tokens)) [] "" "value" []).
    + constructor.
    + apply not_elem_of_nil.
    + reflexivity.
  - exact (proj1 parseHeaders_tokens _ Hblanks Hne).
  - exact (proj1 (proj2 (proj2 (proj2 (proj2 (proj2 (proj2 parseHeaders_tokens))))))
             (String "009" " ") "accept" " " (String " " (String "160" "")) "a=b" ""
             eq_refl eq_refl eq_refl eq_refl eq_refl eq_refl Hname Hnoeq).
Defined.

(** * Further properties of the client *)

(** ** Normalization *)

Lemma normalizeWebhook_id_present (data : value) :
  is_Some (normalizeWebhook data !! "id").
Proof.
  unfold normalizeWebhook. cbv zeta.
  destruct (spread data !! "id") as [v|] eqn:E.
  - exists v. by apply lookup_union_Some_l.
  - rewrite lookup_union_r by exact E. rewrite lookup_singleton_eq. by eexists.
Qed.

(** X1. Normalization is idempotent: normalizing the result of a
    normalization, taken as an object, changes nothing. *)
Theorem normalizeWebhook_idempotent (data : value) :
  normalizeWebhook (VObj (normalizeWebhook data)) = normalizeWebhook data.
Proof.
  destruct (normalizeWebhook_id_present data) as [v Hv].
  unfold normalizeWebhook at 1. cbn [spread].
  apply map_eq. intros k.
  destruct (decide (k = "id")) as [->|Hk].
  - rewrite Hv. by apply lookup_union_Some_l.
  - destruct (normalizeWebhook data !! k) as [x|] eqn:E.
    + by apply lookup_union_Some_l.
    + rewrite lookup_union_r by exact E. by apply lookup_singleton_ne.
Qed.

(** X2. The result of normalization always has the key [id], for every value
    it is given; its keys are [id] and the own keys of the input; and for
    [undefined], [null], a boolean or a number it is exactly
    [{ id: undefined }]. *)
Theorem normalizeWebhook_always_has_id (data : value) :
  is_Some (normalizeWebhook data !! "id")
  /\ dom (normalizeWebhook data) = dom (spread data) ∪ {[ "id" ]}
  /\ match data with
     | VUndef | VNull | VBool _ | VNum _ => normalizeWebhook data = {[ "id" := VUndef ]}
     | _ => True
     end.
Proof.
  split; [apply normalizeWebhook_id_present|]. split.
  - unfold normalizeWebhook. cbv zeta. by rewrite dom_union_L, dom_singleton_L.
  - destruct data; try exact I; unfold normalizeWebhook; cbn [spread get coalesce nullish];
      apply (left_id_L ∅ (∪)).
Qed.

(** ** The runs of the operations *)

Lemma bind_Thrown {A B : Type} (m : M A) (f : A -> M B) w e w' :
  m w = (Thrown e, w') -> (m ≫= f) w = (Thrown e, w').
Proof. intros H. unfold mbind, M_bind. by rewrite H. Qed.

Lemma getAccessToken_world (c : Client) (w : World) :
  snd (getAccessToken c w)
  = {| pending := tail (pending w); sent := sent w ++ [tokenRequest c]; console := console w |}.
Proof.
  unfold getAccessToken, mbind, M_bind, fetch.
  destruct (pending w) as [|res rest]; [reflexivity|].
  destruct (ok res); cbn [negb]; [|reflexivity].
  unfold parseJson. destruct (json res) as [data|]; [|reflexivity].
  cbn. destruct (truthy (get data "access_token")); reflexivity.
Qed.

(** X3. Whatever the token endpoint answers, and also when it does not answer,
    [getAccessToken] sends exactly one request, a POST of the form-encoded
    client credentials to the configured endpoint, takes at most one
    response and prints nothing; [scope] is among the fields exactly when a
    non-empty scope string is configured. *)
Theorem getAccessToken_one_request (c : Client) (w : World) :
  snd (getAccessToken c w)
  = {| pending := tail (pending w); sent := sent w ++ [tokenRequest c]; console := console w |}
  /\ url (tokenRequest c) = authEndpoint (this_oauth c)
  /\ method (tokenRequest c) = "POST"
  /\ exists fields,
       body (tokenRequest c) = Some (BodyForm fields)
       /\ fields.*1 = ["grant_type"; "client_id"; "client_secret"]
                      ++ match scopes (this_oauth c) with
                         | Some (String _ _) => ["scope"]
                         | _ => []
                         end
       /\ (forall s, scopes (this_oauth c) = Some s -> s ≠ "" -> ("scope", s) ∈ fields).
Proof.
  split; [apply getAccessToken_world|]. split; [reflexivity|]. split; [reflexivity|].
  eexists. split; [reflexivity|]. split.
  - destruct (scopes (this_oauth c)) as [[|a s]|]; reflexivity.
  - intros s -> Hs. destruct s as [|a s]; [done|].
    cbn. rewrite !elem_of_cons. tauto.
Qed.

Lemma authHeaders_thrown nts c w e w' :
  getAccessToken c w = (Thrown e, w') -> authHeaders nts c w = (Thrown e, w').
Proof. intros H. unfold authHeaders. by apply bind_Thrown. Qed.

(** X4. A failure of the token exchange is the failure of the operation: each
    of the five operations throws what [getAccessToken] threw and leaves the
    world as [getAccessToken] left it, so no request goes to the webhook
    endpoint and nothing is printed. *)
Theorem token_failure_propagates nts c w e w' req id :
  getAccessToken c w = (Thrown e, w') ->
  createWebhook nts c req w = (Thrown e, w')
  /\ listWebhooks nts c w = (Thrown e, w')
  /\ enableWebhook nts c id w = (Thrown e, w')
  /\ disableWebhook nts c id w = (Thrown e, w')
  /\ deleteWebhook nts c id w = (Thrown e, w')
  /\ sent w' = sent w ++ [tokenRequest c]
  /\ console w' = console w.
Proof.
  intros H. pose proof (authHeaders_thrown nts c w e w' H) as Ha.
  repeat match goal with |- _ /\ _ => split end;
    try (by apply bind_Thrown).
  - pose proof (getAccessToken_world c w) as Hw. rewrite H in Hw. cbn [snd] in Hw. by subst w'.
  - pose proof (getAccessToken_world c w) as Hw. rewrite H in Hw. cbn [snd] in Hw. by subst w'.
Qed.

Lemma token_failure_propagates_witness :
  deleteWebhook printNumber demoClient "wh-1" (worldOf [tokenMissing; notFound])
  = (Thrown (Error "No access_token in OAuth response"),
     {| pending := [notFound]; sent := [tokenRequest demoClient]; console := [] |}).
Proof.
  exact (proj1 (proj2 (proj2 (proj2 (proj2
    (token_failure_propagates printNumber demoClient (worldOf [tokenMissing; notFound])
       (Error "No access_token in OAuth response")
       {| pending := [notFound]; sent := [tokenRequest demoClient]; console := [] |}
       demoRequest "wh-1" eq_refl)))))).
Defined.

(** What follows the request of an operation does not touch the world. *)
Lemma continuation_keeps_world {A : Type} (what : string) (onBody : value -> A)
    (res : Response) (w : World) :
  snd ((if negb (ok res) then
          text ← textOrEmpty res; throw (Error (failureMessage what res text))
        else data ← parseJson res; mret (onBody data)) w) = w.
Proof.
  destruct (ok res); cbn [negb]; [|reflexivity].
  unfold parseJson. destruct (json res); reflexivity.
Qed.

Lemma operation_world {A : Type} nts c w tokRes rest token bearer
    (mk : list (string * string) -> Request) (k : Response -> M A) :
  pending w = tokRes :: rest ->
  grants tokRes token ->
  toStringThrowing nts token = Some bearer ->
  (forall res w', snd (k res w') = w') ->
  snd ((authHeaders nts c ≫= fun headers => fetch (mk headers) ≫= k) w)
  = afterOperation c w rest token (mk (authorization bearer)).
Proof.
  intros Hp Hg Hb Hk.
  rewrite (operation_run nts c w tokRes rest token Hp Hg bearer Hb).
  destruct rest as [|res rest']; [|rewrite Hk]; unfold afterOperation, authorized;
    cbn [sent console tail]; by rewrite <- app_assoc.
Qed.

(** X5. After a token exchange that granted a string, each of the five
    operations leaves the same trace, whatever the webhook endpoint answers:
    the token response and one more response are taken; exactly two requests
    were sent, the token request and the operation's own, which carries
    [Authorization: Bearer <token>] (and, for [createWebhook], the JSON
    content type and the request with [_kind: "Webhook"] as body); and the
    token itself was printed on the console. *)
Theorem operations_trace nts c w tokRes rest (token : string) req id :
  pending w = tokRes :: rest ->
  grants tokRes (VStr token) ->
  let bearer := [("Authorization", ("Bearer " ++ token)%string)] in
  snd (createWebhook nts c req w)
  = afterOperation c w rest (VStr token)
      {| url := appUrl c "/webhooks"; method := "POST";
         headers := bearer ++ [("Content-Type", "application/json")];
         body := Some (BodyJson (VObj (<["_kind" := VStr "Webhook"]> (requestFields req)))) |}
  /\ snd (listWebhooks nts c w)
     = afterOperation c w rest (VStr token)
         {| url := appUrl c "/webhooks"; method := "GET"; headers := bearer; body := None |}
  /\ snd (enableWebhook nts c id w)
     = afterOperation c w rest (VStr token)
         {| url := appUrl c ("/webhooks/" ++ encodeURIComponent id ++ "/enable")%string;
            method := "POST"; headers := bearer; body := None |}
  /\ snd (disableWebhook nts c id w)
     = afterOperation c w rest (VStr token)
         {| url := appUrl c ("/webhooks/" ++ encodeURIComponent id ++ "/disable")%string;
            method := "POST"; headers := bearer; body := None |}
  /\ snd (deleteWebhook nts c id w)
     = afterOperation c w rest (VStr token)
         {| url := appUrl c ("/webhooks/" ++ encodeURIComponent id)%string;
            method := "DELETE"; headers := bearer; body := None |}.
Proof.
  intros Hp Hg bearer.
  assert (forall fields : gmap string value, fields !! "_kind" = None ->
            fields ∪ {[ "_kind" := VStr "Webhook" ]}
            = <["_kind" := VStr "Webhook"]> fields) as Hkind.
  { intros fields Hf. symmetry. by apply insert_union_singleton_r. }
  assert (requestFields req !! "_kind" = None) as Hreq.
  { unfold requestFields.
    destruct (filters req), (customHeaders req);
      rewrite ?lookup_insert_ne by done; by apply lookup_singleton_ne. }
  repeat match goal with |- _ /\ _ => split end.
  - unfold createWebhook.
    rewrite (operation_world nts c w tokRes rest (VStr token) token _ _ Hp Hg eq_refl
               (continuation_keeps_world "Create webhook" normalizeWebhook)).
    unfold authorization. cbn [app]. by rewrite (Hkind _ Hreq).
  - unfold listWebhooks.
    by rewrite (operation_world nts c w tokRes rest (VStr token) token _ _ Hp Hg eq_refl
                  (continuation_keeps_world "List webhooks"
                     (fun data => normalizeWebhook <$> listItems data))).
  - unfold enableWebhook.
    by rewrite (operation_world nts c w tokRes rest (VStr token) token _ _ Hp Hg eq_refl
                  (continuation_keeps_world "Enable webhook" normalizeWebhook)).
  - unfold disableWebhook.
    by rewrite (operation_world nts c w tokRes rest (VStr token) token _ _ Hp Hg eq_refl
                  (continuation_keeps_world "Disable webhook" normalizeWebhook)).
  - unfold deleteWebhook.
    rewrite (operation_world nts c w tokRes rest (VStr token) token _ _ Hp Hg eq_refl); [done|].
    intros res w'. destruct (ok res); reflexivity.
Qed.

Lemma operations_trace_witness :
  console (snd (listWebhooks printNumber demoClient (worldOf [tokenResponse; notFound])))
  = [VStr "tok-1"]
  /\ headers <$> last (sent (snd (listWebhooks printNumber demoClient
                                   (worldOf [tokenResponse; notFound]))))
     = Some [("Authorization", "Bearer tok-1")].
Proof.
  pose proof (proj1 (proj2
    (operations_trace printNumber demoClient (worldOf [tokenResponse; notFound])
       tokenResponse [notFound] "tok-1" demoRequest "wh-1"
       eq_refl tokenResponse_grants))) as H.
  cbv zeta in H. rewrite H. split; reflexivity.
Defined.

(** X6. What a 2xx answer of the webhook endpoint gives, after a token
    exchange that granted a string. With a JSON body, [createWebhook],
    [enableWebhook] and [disableWebhook] return the normalized body; with a
    body that is no JSON they throw the parser's [SyntaxError], as
    [listWebhooks] does. [deleteWebhook] does not read the body: it returns
    on the status alone. *)
Theorem operations_on_2xx nts c w tokRes res rest (token : string) req id :
  pending w = tokRes :: res :: rest ->
  grants tokRes (VStr token) ->
  ok res = true ->
  fst (deleteWebhook nts c id w) = Returned tt
  /\ (forall data, json res = Some data ->
        fst (createWebhook nts c req w) = Returned (normalizeWebhook data)
        /\ fst (enableWebhook nts c id w) = Returned (normalizeWebhook data)
        /\ fst (disableWebhook nts c id w) = Returned (normalizeWebhook data))
  /\ (json res = None ->
        fst (createWebhook nts c req w) = Thrown SyntaxError
        /\ fst (listWebhooks nts c w) = Thrown SyntaxError
        /\ fst (enableWebhook nts c id w) = Thrown SyntaxError
        /\ fst (disableWebhook nts c id w) = Thrown SyntaxError).
Proof.
  intros Hp Hg Hok.
  split; [|split].
  - unfold deleteWebhook.
    rewrite (operation_run nts c w tokRes (res :: rest) (VStr token) Hp Hg token eq_refl), Hok. reflexivity.
  - intros data Hj.
    repeat match goal with |- _ /\ _ => split end.
    + unfold createWebhook.
      rewrite (operation_run nts c w tokRes (res :: rest) (VStr token) Hp Hg token eq_refl), Hok.
      cbn [negb]. unfold parseJson. by rewrite Hj.
    + unfold enableWebhook.
      rewrite (operation_run nts c w tokRes (res :: rest) (VStr token) Hp Hg token eq_refl), Hok.
      cbn [negb]. unfold parseJson. by rewrite Hj.
    + unfold disableWebhook.
      rewrite (operation_run nts c w tokRes (res :: rest) (VStr token) Hp Hg token eq_refl), Hok.
      cbn [negb]. unfold parseJson. by rewrite Hj.
  - intros Hj.
    repeat match goal with |- _ /\ _ => split end.
    + unfold createWebhook.
      rewrite (operation_run nts c w tokRes (res :: rest) (VStr token) Hp Hg token eq_refl), Hok.
      cbn [negb]. unfold parseJson. by rewrite Hj.
    + unfold listWebhooks.
      rewrite (operation_run nts c w tokRes (res :: rest) (VStr token) Hp Hg token eq_refl), Hok.
      cbn [negb]. unfold parseJson. by rewrite Hj.
    + unfold enableWebhook.
      rewrite (operation_run nts c w tokRes (res :: rest) (VStr token) Hp Hg token eq_refl), Hok.
      cbn [negb]. unfold parseJson. by rewrite Hj.
    + unfold disableWebhook.
      rewrite (operation_run nts c w tokRes (res :: rest) (VStr token) Hp Hg token eq_refl), Hok.
      cbn [negb]. unfold parseJson. by rewrite Hj.
Qed.

Lemma operations_on_2xx_witness :
  fst (deleteWebhook printNumber demoClient "wh-1" (worldOf [tokenResponse; noContent]))
  = Returned tt.
Proof.
  exact (proj1
    (operations_on_2xx printNumber demoClient (worldOf [tokenResponse; noContent])
       tokenResponse noContent [] "tok-1" demoRequest "wh-1"
       eq_refl tokenResponse_grants eq_refl)).
Defined.

(** * Further properties of the argument parser *)

Lemma globalFlags_only_env (paths : list string) (env : option string) :
  globalFlags (envTokens paths) env
  = (match last paths with Some x => Some x | None => env end, []).
Proof.
  revert env. induction paths as [|x paths IH]; intros env; [reflexivity|].
  change (envTokens (x :: paths)) with ("--env" :: x :: envTokens paths).
  cbn [globalFlags]. rewrite String.eqb_refl, IH.
  destruct paths as [|y paths]; [reflexivity|].
  cbn [last]. destruct (last (y :: paths)) eqn:E; [reflexivity|].
  by apply last_None in E.
Qed.

Lemma globalFlags_lone_env (paths : list string) (env : option string) :
  globalFlags (envTokens paths ++ ["--env"]) env
  = (match last paths with Some x => Some x | None => env end, ["--env"]).
Proof.
  revert env. induction paths as [|x paths IH]; intros env; [reflexivity|].
  change (envTokens (x :: paths) ++ ["--env"])
    with ("--env" :: x :: (envTokens paths ++ ["--env"])).
  cbn [globalFlags]. rewrite String.eqb_refl, IH.
  destruct paths as [|y paths]; [reflexivity|].
  cbn [last]. destruct (last (y :: paths)) eqn:E; [reflexivity|].
  by apply last_None in E.
Qed.

(** X7. The [--env] pairs before the command. Of several leading pairs the
    last path is kept, and the token after them is the command. An argument
    list of such pairs only has an env path and no command. An [--env]
    without a token after it is not read as the option: it becomes the
    command name. *)
Theorem parseArgs_leading_env (node script : string) (paths : list string) :
  noHelp (envTokens paths) ->
  (forall cmd rest, cmd ≠ "--env" -> noHelp (cmd :: rest) ->
     envFile (parseArgs (node :: script :: envTokens paths ++ cmd :: rest)) = last paths
     /\ command (parseArgs (node :: script :: envTokens paths ++ cmd :: rest)) = Some cmd)
  /\ (paths ≠ [] ->
      parseArgs (node :: script :: envTokens paths)
      = {| envFile := last paths; command := None; params := []; flags := ∅ |})
  /\ parseArgs (node :: script :: envTokens paths ++ ["--env"])
     = {| envFile := last paths; command := Some "--env"; params := []; flags := ∅ |}.
Proof.
  intros Hh. split; [|split].
  - intros cmd rest Hcmd Hrest.
    assert (noHelp (envTokens paths ++ cmd :: rest)) as Hall by (by apply noHelp_app).
    by rewrite (parseArgs_command node script paths cmd rest Hall Hcmd).
  - intros Hne. destruct Hh as [Hh1 Hh2]. unfold parseArgs.
    change (drop 2 (node :: script :: envTokens paths)) with (envTokens paths). cbv zeta.
    rewrite (includes_false _ _ Hh1), (includes_false _ _ Hh2), !orb_false_r.
    destruct paths as [|x paths]; [done|].
    change (envTokens (x :: paths)) with ("--env" :: x :: envTokens paths) at 1.
    cbn [length Nat.eqb]. rewrite globalFlags_only_env. cbn [commandFlags].
    destruct (last (x :: paths)) eqn:E; [reflexivity|]. by apply last_None in E.
  - assert (noHelp (envTokens paths ++ ["--env"])) as [Hh1 Hh2].
    { apply noHelp_app. split; [exact Hh|].
      split; intros Hin; apply list_elem_of_singleton in Hin; discriminate. }
    unfold parseArgs.
    change (drop 2 (node :: script :: envTokens paths ++ ["--env"]))
      with (envTokens paths ++ ["--env"]). cbv zeta.
    rewrite (includes_false _ _ Hh1), (includes_false _ _ Hh2), !orb_false_r.
    rewrite length_app. cbn [length]. rewrite Nat.add_succ_r. cbn [Nat.eqb].
    rewrite globalFlags_lone_env. cbn [commandFlags].
    by destruct (last paths).
Qed.

Lemma parseArgs_leading_env_witness :
  parseArgs ["node"; "cli.js"; "--env"; "a.env"; "--env"; "b.env"]
  = {| envFile := Some "b.env"; command := None; params := []; flags := ∅ |}
  /\ parseArgs ["node"; "cli.js"; "--env"; "a.env"; "--env"]
     = {| envFile := Some "a.env"; command := Some "--env"; params := []; flags := ∅ |}.
Proof.
  assert (noHelp (envTokens ["a.env"; "b.env"])) as H2.
  { split; apply (bool_decide_unpack _); exact I. }
  assert (noHelp (envTokens ["a.env"])) as H1.
  { split; apply (bool_decide_unpack _); exact I. }
  split.
  - apply (proj1 (proj2 (parseArgs_leading_env "node" "cli.js" ["a.env"; "b.env"] H2))).
    discriminate.
  - exact (proj2 (proj2 (parseArgs_leading_env "node" "cli.js" ["a.env"] H1))).
Defined.

Lemma commandFlags_plain_tokens (rest : list string) :
  Forall (fun a => takesValue a = false) rest ->
  forall f p,
    commandFlags rest f p
    = (setAll (List.filter dashed rest) f, p ++ List.filter (fun a => negb (dashed a)) rest).
Proof.
  induction 1 as [|a rest Ha _ IH]; intros f p.
  - cbn. by rewrite app_nil_r.
  - rewrite (commandFlags_plain _ _ _ _ Ha), IH. unfold plainToken.
    cbn [List.filter]. fold (dashed a). destruct (dashed a); cbn [negb fst snd].
    + reflexivity.
    + by rewrite <- app_assoc.
Qed.

Lemma setAll_values (tokens : list string) (f : gmap string FlagValue) (k : string)
    (v : FlagValue) :
  setAll tokens f !! k = Some v -> v = FBool true \/ f !! k = Some v.
Proof.
  revert f. induction tokens as [|a tokens IH]; intros f; [by right|].
  cbn [setAll foldl]. intros H. apply IH in H as [H|H]; [by left|].
  unfold setTrue in H. destruct (String.eqb (stripDashes a) "__proto__"); [by right|].
  destruct (decide (stripDashes a = k)) as [<-|Hne].
  - rewrite lookup_insert_eq in H. left. congruence.
  - rewrite lookup_insert_ne in H by done. by right.
Qed.

Lemma setTrue_lookup (a k : string) (f : gmap string FlagValue) :
  setTrue a f !! k = Some (FBool true)
  <-> f !! k = Some (FBool true) \/ (k ≠ "__proto__" /\ a = k).
Proof.
  unfold setTrue. destruct (String.eqb a "__proto__") eqn:E.
  - apply String.eqb_eq in E. subst a. split; [by left | intros [H|[H1 H2]]; [exact H | done]].
  - apply String.eqb_neq in E. destruct (decide (a = k)) as [<-|Hne].
    + rewrite lookup_insert_eq. split; [by right | reflexivity].
    + rewrite lookup_insert_ne by done. split; [by left | intros [H|[_ H]]; [exact H | done]].
Qed.

Lemma setAll_lookup (tokens : list string) (f : gmap string FlagValue) (k : string) :
  setAll tokens f !! k = Some (FBool true)
  <-> f !! k = Some (FBool true)
      \/ (k ≠ "__proto__" /\ exists a, a ∈ tokens /\ stripDashes a = k).
Proof.
  revert f. induction tokens as [|a tokens IH]; intros f.
  - cbn [setAll foldl]. split; [by left|].
    intros [H|(_ & a & Ha & _)]; [exact H | by apply elem_of_nil in Ha].
  - change (setAll (a :: tokens) f) with (setAll tokens (setTrue (stripDashes a) f)).
    rewrite IH, setTrue_lookup. split.
    + intros [[H|[Hk Ha]]|(Hk & a' & Ha' & Hs)].
      * by left.
      * right. split; [exact Hk|]. exists a. split; [apply list_elem_of_here | exact Ha].
      * right. split; [exact Hk|]. exists a'. split; [by apply list_elem_of_further | exact Hs].
    + intros [H|(Hk & a' & Ha' & Hs)]; [by left; left|].
      apply elem_of_cons in Ha' as [->|Ha'].
      * left. right. by split.
      * right. split; [exact Hk|]. by exists a'.
Qed.

(** X8. A command line without a help token, made of a command (other than
    [--env]) and tokens none of which is one of the six flags that look at
    the token after them ([--env], [--url], [--event], [-e], [--header],
    [-H]): the parameters are the tokens that do not start with a dash, in
    their order; a flag is set exactly when a token that starts with a dash
    has its name, once one or two leading dashes are taken off, and that
    name is not [__proto__] (assigning [true] to this key of an object
    literal stores nothing); every flag that is set holds [true]; the
    spellings [-x] and [--x] name the same flag. *)
Theorem parseArgs_plain_tokens (node script cmd : string) (rest : list string) :
  noHelp (cmd :: rest) ->
  cmd ≠ "--env" ->
  Forall (fun a => takesValue a = false) rest ->
  let r := parseArgs (node :: script :: cmd :: rest) in
  command r = Some cmd
  /\ params r = List.filter (fun a => negb (dashed a)) rest
  /\ (forall k, flags r !! k = Some (FBool true)
                <-> k ≠ "__proto__"
                    /\ exists a, a ∈ rest /\ dashed a = true /\ stripDashes a = k)
  /\ (forall k v, flags r !! k = Some v -> v = FBool true)
  /\ (forall x, dashed x = false ->
        stripDashes ("-" ++ x)%string = x /\ stripDashes ("--" ++ x)%string = x).
Proof.
  intros Hh Hcmd Hrest r. subst r.
  pose proof (parseArgs_command node script [] cmd rest Hh Hcmd) as Hc.
  cbn [envTokens flat_map app] in Hc. rewrite Hc.
  rewrite (commandFlags_plain_tokens rest Hrest). cbn [command params flags fst snd app].
  repeat match goal with |- _ /\ _ => split end; try reflexivity.
  - intros k. rewrite setAll_lookup, lookup_empty. split.
    + intros [H|(Hk & a & Ha & Hs)]; [discriminate H|].
      apply list_elem_of_In, filter_In in Ha as [Ha Hd]. apply list_elem_of_In in Ha.
      split; [exact Hk|]. by exists a.
    + intros (Hk & a & Ha & Hd & Hs). right.
      split; [exact Hk|]. exists a. split; [|exact Hs].
      apply list_elem_of_In, filter_In. split; [by apply list_elem_of_In | exact Hd].
  - intros k v H. apply setAll_values in H as [H|H]; [exact H|].
    by rewrite lookup_empty in H.
  - intros x Hx. destruct x as [|a x]; [split; reflexivity|].
    destruct a as [[] [] [] [] [] [] [] []];
      first [ split; reflexivity | destruct x; cbv in Hx; discriminate Hx ].
Qed.

Lemma parseArgs_plain_tokens_witness :
  params (parseArgs ["node"; "cli.js"; "enable"; "-v"; "id-1"; "--__proto__"; "--dry-run"; "id-2"])
  = ["id-1"; "id-2"]
  /\ flags (parseArgs ["node"; "cli.js"; "enable"; "-v"; "id-1"; "--__proto__"; "--dry-run"; "id-2"])
     !! "v" = Some (FBool true)
  /\ flags (parseArgs ["node"; "cli.js"; "enable"; "-v"; "id-1"; "--__proto__"; "--dry-run"; "id-2"])
     !! "dry-run" = Some (FBool true)
  /\ flags (parseArgs ["node"; "cli.js"; "enable"; "-v"; "id-1"; "--__proto__"; "--dry-run"; "id-2"])
     !! "__proto__" = None.
Proof.
  assert (noHelp ["enable"; "-v"; "id-1"; "--__proto__"; "--dry-run"; "id-2"]) as Hh.
  { split; apply (bool_decide_unpack _); exact I. }
  assert ("enable" ≠ "--env") as Hcmd by discriminate.
  assert (Forall (fun a => takesValue a = false)
            ["-v"; "id-1"; "--__proto__"; "--dry-run"; "id-2"]) as Hrest.
  { repeat constructor. }
  pose proof (parseArgs_plain_tokens "node" "cli.js" "enable" _ Hh Hcmd Hrest) as H.
  cbv zeta in H. destruct H as (_ & Hp & Hset & Htrue & _).
  split; [exact Hp|]. split; [|split].
  - apply Hset. split; [discriminate|]. exists "-v".
    split; [apply (bool_decide_unpack _); exact I|]. split; reflexivity.
  - apply Hset. split; [discriminate|]. exists "--dry-run".
    split; [apply (bool_decide_unpack _); exact I|]. split; reflexivity.
  - destruct (flags _ !! "__proto__") as [v|] eqn:E; [|reflexivity].
    pose proof (Htrue _ _ E) as ->. apply Hset in E as [Hk _]. by destruct Hk.
Defined.

Lemma valueFlags_takesValue (a : string) : a ∈ valueFlags -> takesValue a = true.
Proof.
  intros H. unfold valueFlags in H.
  repeat (apply elem_of_cons in H as [-> | H]; [reflexivity|]).
  by apply elem_of_nil in H.
Qed.

Lemma commandFlags_pairs (ps : list (string * string)) :
  Forall (fun p => fst p ∈ valueFlags) ps ->
  forall rest f p,
    commandFlags (pairTokens ps ++ rest) f p = commandFlags rest (applyPairs ps f) p.
Proof.
  induction 1 as [|[a v] ps Ha _ IH]; intros rest f p; [reflexivity|].
  change (pairTokens ((a, v) :: ps) ++ rest) with (a :: v :: (pairTokens ps ++ rest)).
  rewrite (commandFlags_value _ _ _ _ _ (valueFlags_takesValue _ Ha)). apply IH.
Qed.

Lemma valuesOf_snoc (names : list string) (ps : list (string * string)) (p : string * string) :
  valuesOf names (ps ++ [p])
  = valuesOf names ps ++ (if bool_decide (fst p ∈ names) then [snd p] else []).
Proof.
  induction ps as [|q ps IH]; cbn [app valuesOf].
  - by destruct (bool_decide (fst p ∈ names)).
  - rewrite IH. by destruct (bool_decide (fst q ∈ names)).
Qed.

Lemma ensureArray_arrayFlag (f : gmap string FlagValue) (k : string) (vs : list string) :
  f !! k = arrayFlag vs -> ensureArray f k = vs.
Proof. unfold ensureArray. intros ->. by destruct vs. Qed.

Lemma arrayFlag_snoc (vs : list string) (v : string) :
  arrayFlag (vs ++ [v]) = Some (FArr (vs ++ [v])).
Proof. by destruct vs. Qed.

Lemma valueFlags_inv (a : string) :
  a ∈ valueFlags ->
  a = "--url" \/ a = "--event" \/ a = "-e" \/ a = "--header" \/ a = "-H".
Proof.
  intros H. unfold valueFlags in H.
  repeat (apply elem_of_cons in H as [-> | H]; [tauto|]).
  by apply elem_of_nil in H.
Qed.

Ltac decide_flags :=
  repeat match goal with
         | |- context [bool_decide (?a ∈ ?l)] =>
             let b := eval vm_compute in (bool_decide (a ∈ l)) in
             change (bool_decide (a ∈ l)) with b
         | |- context [bool_decide (?a = ?c)] =>
             let b := eval vm_compute in (bool_decide (a = c)) in
             change (bool_decide (a = c)) with b
         end.

(** The flag dictionary after a run of pairs, read key by key. *)
Lemma applyPairs_lookup (ps : list (string * string)) :
  Forall (fun p => fst p ∈ valueFlags) ps ->
  applyPairs ps ∅ !! "url" = FStr <$> last (valuesOf ["--url"] ps)
  /\ applyPairs ps ∅ !! "event" = arrayFlag (valuesOf ["--event"; "-e"] ps)
  /\ applyPairs ps ∅ !! "header" = arrayFlag (valuesOf ["--header"; "-H"] ps)
  /\ (forall k, k ∉ ["url"; "event"; "header"] -> applyPairs ps ∅ !! k = None).
Proof.
  induction ps as [|[a v] ps IH] using rev_ind; intros Hps.
  - repeat split.
  - rewrite Forall_app, Forall_singleton in Hps. destruct Hps as [Hps Ha]. cbn [fst] in Ha.
    destruct (IH Hps) as (Hu & He & Hh & Ho). clear IH.
    unfold applyPairs in *. rewrite foldl_app. cbn [foldl fst snd].
    rewrite !valuesOf_snoc. cbn [fst snd].
    set (g := foldl _ ∅ ps) in *.
    apply valueFlags_inv in Ha.
    destruct Ha as [-> | [-> | [-> | [-> | ->]]]];
      (unfold withValue, push; decide_flags; rewrite ?app_nil_r;
      (split; [|split; [|split]]);
      [ rewrite ?lookup_insert_eq, ?lookup_insert_ne by done; rewrite ?last_snoc;
        first [exact Hu | reflexivity]
      | rewrite ?lookup_insert_eq, ?lookup_insert_ne by done;
        rewrite ?(ensureArray_arrayFlag _ _ _ He), ?arrayFlag_snoc;
        first [exact He | reflexivity]
      | rewrite ?lookup_insert_eq, ?lookup_insert_ne by done;
        rewrite ?(ensureArray_arrayFlag _ _ _ Hh), ?arrayFlag_snoc;
        first [exact Hh | reflexivity]
      | intros k Hk; pose proof Hk as Hk';
        apply not_elem_of_cons in Hk' as [? Hk'];
        apply not_elem_of_cons in Hk' as [? Hk'];
        apply not_elem_of_cons in Hk' as [? _];
        rewrite ?lookup_insert_ne by done; by apply Ho ]).
Qed.

Lemma parseArgs_pairs (node script cmd : string) (ps : list (string * string)) :
  noHelp (cmd :: pairTokens ps) ->
  cmd ≠ "--env" ->
  Forall (fun p => fst p ∈ valueFlags) ps ->
  parseArgs (node :: script :: cmd :: pairTokens ps)
  = {| envFile := None; command := Some cmd; params := []; flags := applyPairs ps ∅ |}.
Proof.
  intros Hh Hcmd Hps.
  pose proof (parseArgs_command node script [] cmd (pairTokens ps) Hh Hcmd) as Hc.
  cbn [envTokens flat_map app] in Hc. rewrite Hc.
  pose proof (commandFlags_pairs ps Hps [] ∅ []) as H. rewrite app_nil_r in H.
  by rewrite H.
Qed.

(** X9. A command line without a help token, made of a command (other than
    [--env]) and pairs of one of the five flags that store a value ([--url],
    [--event], [-e], [--header], [-H]) and its value, in any order and mix:
    there is no parameter; [url] holds the value of the last [--url] (no key
    when there is none); [event] holds the values of all [--event] and [-e]
    pairs in their order, and [header] those of all [--header] and [-H]
    pairs, each independently of the pairs of the other flags (no key when
    the flag was never given); and there is no other key. *)
Theorem parseArgs_value_pairs (node script cmd : string) (ps : list (string * string)) :
  noHelp (cmd :: pairTokens ps) ->
  cmd ≠ "--env" ->
  Forall (fun p => fst p ∈ valueFlags) ps ->
  let r := parseArgs (node :: script :: cmd :: pairTokens ps) in
  command r = Some cmd
  /\ params r = []
  /\ flags r !! "url" = FStr <$> last (valuesOf ["--url"] ps)
  /\ flags r !! "event" = arrayFlag (valuesOf ["--event"; "-e"] ps)
  /\ flags r !! "header" = arrayFlag (valuesOf ["--header"; "-H"] ps)
  /\ (forall k, k ∉ ["url"; "event"; "header"] -> flags r !! k = None).
Proof.
  intros Hh Hcmd Hps r. subst r.
  rewrite (parseArgs_pairs node script cmd ps Hh Hcmd Hps). cbn [command params flags].
  split; [reflexivity|]. split; [reflexivity|]. by apply applyPairs_lookup.
Qed.

Lemma parseArgs_value_pairs_witness :
  flags (parseArgs ["node"; "cli.js"; "create"; "-H"; "a=1"; "--url"; "u1"; "-e"; "x";
                    "--header"; "b=2"; "--url"; "u2"; "--event"; "y"]) !! "url"
  = Some (FStr "u2")
  /\ flags (parseArgs ["node"; "cli.js"; "create"; "-H"; "a=1"; "--url"; "u1"; "-e"; "x";
                       "--header"; "b=2"; "--url"; "u2"; "--event"; "y"]) !! "event"
     = Some (FArr ["x"; "y"]).
Proof.
  assert (noHelp ("create" :: pairTokens [("-H", "a=1"); ("--url", "u1"); ("-e", "x");
                                          ("--header", "b=2"); ("--url", "u2");
                                          ("--event", "y")])) as Hh.
  { split; apply (bool_decide_unpack _); exact I. }
  assert (Forall (fun p : string * string => fst p ∈ valueFlags)
            [("-H", "a=1"); ("--url", "u1"); ("-e", "x"); ("--header", "b=2");
             ("--url", "u2"); ("--event", "y")]) as Hps.
  { repeat constructor; apply (bool_decide_unpack _); exact I. }
  pose proof (parseArgs_value_pairs "node" "cli.js" "create" _ Hh
                (fun H : "create" = "--env" => eq_ind "create"
                   (fun s => match s with String "c" _ => True | _ => False end) I _ H)
                Hps) as H.
  cbv zeta in H. destruct H as (_ & _ & Hu & He & _).
  split; [exact Hu | exact He].
Defined.

(** X10. On a command line without a help token, a [--header] that stands
    last, after leading [--env] pairs if any, the command (other than
    [--env]) and tokens that the second loop reads as whole tokens, so that
    this [--header] is read as a flag and not passed over as the value of
    the flag before it, silently takes away every header given before it:
    the flag [header] then holds [true], and [parseHeaders] answers
    [undefined] for it, as if no header had been given. *)
Theorem trailing_header_drops_headers (node script : string) (paths : list string)
    (cmd : string) (pre : list string) :
  noHelp (envTokens paths ++ cmd :: pre) ->
  cmd ≠ "--env" ->
  wholeTokens pre = true ->
  let r := parseArgs (node :: script :: envTokens paths ++ cmd :: pre ++ ["--header"]) in
  flags r !! "header" = Some (FBool true)
  /\ parseHeaders (flags r !! "header") = Returned None.
Proof.
  intros Hh Hcmd Hw r.
  assert (noHelp (envTokens paths ++ cmd :: pre ++ ["--header"])) as Hh'.
  { change (envTokens paths ++ cmd :: pre ++ ["--header"])
      with (envTokens paths ++ (cmd :: pre) ++ ["--header"]).
    rewrite app_assoc. apply noHelp_app. split; [exact Hh|].
    split; intros Hin; apply list_elem_of_singleton in Hin; discriminate. }
  assert (flags r !! "header" = Some (FBool true)) as Hf.
  { subst r. rewrite (parseArgs_command _ _ _ _ _ Hh' Hcmd). cbn [flags].
    rewrite (commandFlags_app pre ["--header"] Hw).
    rewrite (commandFlags_last "--header" "header") by (apply (bool_decide_unpack _); exact I).
    cbn [fst]. apply lookup_insert_eq. }
  split; [exact Hf | by rewrite Hf].
Qed.

Lemma trailing_header_drops_headers_witness :
  parseHeaders
    (flags (parseArgs ["node"; "cli.js"; "create"; "--url"; "u"; "--event"; "e";
                       "--header"; "x-api-key=secret"; "--header"]) !! "header")
  = Returned None.
Proof.
  assert (noHelp (envTokens [] ++ "create" :: ["--url"; "u"; "--event"; "e";
                                               "--header"; "x-api-key=secret"])) as Hh.
  { split; apply (bool_decide_unpack _); exact I. }
  exact (proj2 (trailing_header_drops_headers "node" "cli.js" [] "create"
                  ["--url"; "u"; "--event"; "e"; "--header"; "x-api-key=secret"] Hh
                  (fun H : "create" = "--env" => eq_ind "create"
                     (fun s => match s with String "c" _ => True | _ => False end) I _ H)
                  eq_refl)).
Defined.



(** * Properties of the environment file and the configuration *)

Example splitLines_example :
  Env.splitLines dotenv
  = ["# Carerix"; "CX_CLIENT_ID = cid"; "CX_CLIENT_ID=other"; ""; "CX_CLIENT_SECRET='s e c'";
     "toString=x"; "not a setting"].
Proof. vm_compute. reflexivity. Qed.

Example loadLines_example :
  Env.loadLines (Env.splitLines dotenv) {[ "CX_CLIENT_SECRET" := "from-shell" ]}
  = {[ "CX_CLIENT_ID" := "cid"; "CX_CLIENT_SECRET" := "from-shell" ]}.
Proof. vm_compute. reflexivity. Qed.

Example parseLine_quoted :
  Env.parseLine "  KEY = 'a b'  " = Some ("KEY", "a b").
Proof. vm_compute. reflexivity. Qed.

Lemma has_false (k : string) (env : gmap string string) :
  Env.has k env = false -> env !! k = None /\ k ∉ Env.inheritedNames.
Proof.
  unfold Env.has. intros [H1 H2]%orb_false_elim.
  apply bool_decide_eq_false in H1, H2. split; [|exact H2].
  by apply eq_None_not_Some.
Qed.

Lemma has_mono (k : string) (env env' : gmap string string) :
  env ⊆ env' -> Env.has k env = true -> Env.has k env' = true.
Proof.
  unfold Env.has. intros Hsub [H|H]%orb_true_elim; [|by rewrite H, orb_true_r].
  apply bool_decide_eq_true in H as [v Hv].
  rewrite bool_decide_eq_true_2; [reflexivity|].
  exists v. by eapply lookup_weaken.
Qed.

Lemma set_lookup_ne (k key value : string) (env : gmap string string) :
  k ≠ key -> Env.set key value env !! k = env !! k.
Proof.
  intros Hne. unfold Env.set. destruct (String.eqb key ""); [reflexivity|].
  by apply lookup_insert_ne.
Qed.

Lemma loadLine_subseteq (env : gmap string string) (line : string) :
  env ⊆ Env.loadLine env line.
Proof.
  unfold Env.loadLine. destruct (Env.parseLine line) as [[key value]|]; [|reflexivity].
  destruct (Env.has key env) eqn:Hhas; [reflexivity|].
  apply has_false in Hhas as [Hnone _]. unfold Env.set.
  destruct (String.eqb key ""); [reflexivity|]. by apply insert_subseteq.
Qed.

Lemma loadLines_subseteq (lines : list string) (env : gmap string string) :
  env ⊆ Env.loadLines lines env.
Proof.
  revert env. induction lines as [|line lines IH]; intros env; [reflexivity|].
  cbn [Env.loadLines foldl]. etrans; [apply loadLine_subseteq | apply IH].
Qed.

(** A name that [in] finds keeps what it holds, set or not. *)
Lemma loadLine_has (k : string) (env : gmap string string) (line : string) :
  Env.has k env = true -> Env.loadLine env line !! k = env !! k.
Proof.
  intros Hk. unfold Env.loadLine.
  destruct (Env.parseLine line) as [[key value]|]; [|reflexivity].
  destruct (Env.has key env) eqn:Hhas; [reflexivity|].
  apply set_lookup_ne. intros ->. congruence.
Qed.

Lemma loadLines_has (k : string) (lines : list string) (env : gmap string string) :
  Env.has k env = true -> Env.loadLines lines env !! k = env !! k.
Proof.
  revert env. induction lines as [|line lines IH]; intros env Hk; [reflexivity|].
  cbn [Env.loadLines foldl]. fold (Env.loadLines lines (Env.loadLine env line)).
  rewrite IH; [by apply loadLine_has|].
  eapply has_mono; [apply loadLine_subseteq | exact Hk].
Qed.

Lemma loadLines_empty_name (lines : list string) (env : gmap string string) :
  Env.loadLines lines env !! "" = env !! "".
Proof.
  revert env. induction lines as [|line lines IH]; intros env; [reflexivity|].
  cbn [Env.loadLines foldl]. fold (Env.loadLines lines (Env.loadLine env line)).
  rewrite IH. unfold Env.loadLine.
  destruct (Env.parseLine line) as [[key value]|]; [|reflexivity].
  destruct (Env.has key env); [reflexivity|].
  unfold Env.set. destruct (String.eqb key "") eqn:E; [reflexivity|].
  apply lookup_insert_ne. intros ->. discriminate.
Qed.

(** X12. Loading an env file never changes what the environment already has:
    every variable that is set keeps its value (the environment wins over the
    file); a name that [in] finds on [Object.prototype], such as [toString],
    is never set from the file; no variable with the empty name appears; and
    when the file cannot be read the environment is left as it was and the
    error names the path and carries the reader's message. *)
Theorem loadEnvFile_environment_wins (fs : FileSystem) (path : string)
    (env : gmap string string) :
  env ⊆ snd (loadEnvFile fs path env)
  /\ (forall k, Env.has k env = true -> snd (loadEnvFile fs path env) !! k = env !! k)
  /\ snd (loadEnvFile fs path env) !! "" = env !! ""
  /\ (forall message, fs path = inl message ->
        loadEnvFile fs path env
        = (Thrown (Error ("Failed to load env file at " ++ path ++ ": " ++ message)%string),
           env)).
Proof.
  unfold loadEnvFile. destruct (fs path) as [message|raw]; cbn [snd].
  - repeat split; try reflexivity. by intros ? [= ->].
  - split; [apply loadLines_subseteq|]. split; [|split].
    + intros k Hk. by apply loadLines_has.
    + apply loadLines_empty_name.
    + intros message [=].
Qed.

Lemma loadLine_stable (env e2 : gmap string string) (line : string) :
  Env.loadLine env line ⊆ e2 -> Env.loadLine e2 line = e2.
Proof.
  unfold Env.loadLine. destruct (Env.parseLine line) as [[key value]|]; [|reflexivity].
  intros Hsub. destruct (Env.has key e2) eqn:H2; [reflexivity|].
  unfold Env.set in *. destruct (String.eqb key "") eqn:Ekey; [reflexivity|].
  exfalso. apply has_false in H2 as [Hnone Hinh].
  destruct (Env.has key env) eqn:H1.
  - apply (has_mono _ _ _ Hsub) in H1. unfold Env.has in H1.
    apply orb_true_elim in H1 as [H1|H1]; apply bool_decide_eq_true in H1.
    + destruct H1 as [v Hv]. congruence.
    + contradiction.
  - pose proof (lookup_weaken _ _ key value (lookup_insert_eq _ _ _) Hsub). congruence.
Qed.

Lemma loadLines_stable (lines : list string) (env e2 : gmap string string) :
  Env.loadLines lines env ⊆ e2 -> Env.loadLines lines e2 = e2.
Proof.
  revert env e2. induction lines as [|line lines IH]; intros env e2 Hsub; [reflexivity|].
  cbn [Env.loadLines foldl] in *. fold (Env.loadLines lines (Env.loadLine env line)) in Hsub.
  fold (Env.loadLines lines (Env.loadLine e2 line)).
  rewrite (loadLine_stable env e2 line).
  - by apply (IH (Env.loadLine env line)).
  - etrans; [apply loadLines_subseteq | exact Hsub].
Qed.

(** X13. Loading the same file a second time changes nothing, and neither
    does loading it into any environment that already holds the result of
    loading it. *)
Theorem loadEnvFile_idempotent (fs : FileSystem) (path : string)
    (env : gmap string string) :
  snd (loadEnvFile fs path (snd (loadEnvFile fs path env))) = snd (loadEnvFile fs path env)
  /\ (forall later, snd (loadEnvFile fs path env) ⊆ later ->
        snd (loadEnvFile fs path later) = later).
Proof.
  unfold loadEnvFile. destruct (fs path) as [message|raw]; cbn [snd].
  - by split.
  - split.
    + by apply (loadLines_stable _ env).
    + intros later Hsub. by apply (loadLines_stable _ env).
Qed.

Lemma loadLines_untouched (k : string) (lines : list string) (env : gmap string string) :
  Forall (fun line => forall v, Env.parseLine line ≠ Some (k, v)) lines ->
  Env.loadLines lines env !! k = env !! k.
Proof.
  intros H. revert env. induction H as [|line lines Hline _ IH]; intros env; [reflexivity|].
  cbn [Env.loadLines foldl]. fold (Env.loadLines lines (Env.loadLine env line)).
  rewrite IH. unfold Env.loadLine.
  destruct (Env.parseLine line) as [[key value]|] eqn:E; [|reflexivity].
  destruct (Env.has key env); [reflexivity|].
  apply set_lookup_ne. intros ->. by apply (Hline value).
Qed.

(** X14. Of several lines for the same variable the first one counts. When
    the environment does not have the name [k] (and [k] is neither empty nor
    a name of [Object.prototype]), and the first line of the file that
    stands for [k] gives the value [v], then [k] holds [v] after loading,
    whatever the lines after it say. A variable no line stands for is left
    as it was. *)
Theorem loadEnvFile_first_line_wins (fs : FileSystem) (path raw : string)
    (env : gmap string string) (before : list string) (line : string)
    (after : list string) (k v : string) :
  fs path = inr raw ->
  Env.splitLines raw = before ++ line :: after ->
  Forall (fun l => forall v', Env.parseLine l ≠ Some (k, v')) before ->
  Env.parseLine line = Some (k, v) ->
  Env.has k env = false ->
  k ≠ "" ->
  snd (loadEnvFile fs path env) !! k = Some v
  /\ (forall k', Forall (fun l => forall v', Env.parseLine l ≠ Some (k', v'))
                   (Env.splitLines raw) ->
        snd (loadEnvFile fs path env) !! k' = env !! k').
Proof.
  intros Hfs Hlines Hbefore Hline Hhas Hk.
  unfold loadEnvFile. rewrite Hfs. cbn [snd]. split.
  - rewrite Hlines. unfold Env.loadLines. rewrite foldl_app. cbn [foldl].
    fold (Env.loadLines before env).
    set (e0 := Env.loadLines before env).
    fold (Env.loadLines after (Env.loadLine e0 line)).
    apply has_false in Hhas as [Hnone Hinh].
    assert (Env.has k e0 = false) as H0.
    { unfold Env.has. subst e0. rewrite (loadLines_untouched k before env Hbefore), Hnone.
      rewrite bool_decide_eq_false_2 by (by intros [? ?]).
      by rewrite bool_decide_eq_false_2. }
    assert (Env.loadLine e0 line !! k = Some v) as H1.
    { unfold Env.loadLine. rewrite Hline, H0. unfold Env.set.
      apply String.eqb_neq in Hk. rewrite Hk. apply lookup_insert_eq. }
    eapply lookup_weaken; [exact H1 | apply loadLines_subseteq].
  - intros k' Hnone. by apply loadLines_untouched.
Qed.

Lemma loadEnvFile_first_line_wins_witness :
  snd (loadEnvFile (oneFile ".env" dotenv) ".env" ∅) !! "CX_CLIENT_ID" = Some "cid".
Proof.
  refine (proj1 (loadEnvFile_first_line_wins (oneFile ".env" dotenv) ".env" dotenv ∅
            ["# Carerix"] "CX_CLIENT_ID = cid"
            ["CX_CLIENT_ID=other"; ""; "CX_CLIENT_SECRET='s e c'"; "toString=x";
             "not a setting"]
            "CX_CLIENT_ID" "cid" eq_refl _ _ _ eq_refl _)).
  - vm_compute. reflexivity.
  - repeat constructor. intros v'. vm_compute. discriminate.
  - vm_compute. reflexivity.
  - discriminate.
Defined.

Lemma trimStart_app_nonwhite (k : string) (c : ascii) (s : string) :
  Str.isWhite c = false ->
  Str.trimStart (k ++ String c s)%string = (Str.trimStart k ++ String c s)%string.
Proof.
  intros Hc. induction k as [|a k IH].
  - change (Str.trimStart (String c s) = String c s). cbn [Str.trimStart]. by rewrite Hc.
  - rewrite string_app_cons. cbn [Str.trimStart].
    destruct (Str.isWhite a); [exact IH | reflexivity].
Qed.

Lemma trimEnd_cons_nonwhite (c : ascii) (v : string) :
  Str.isWhite c = false -> Str.trimEnd (String c v) = String c (Str.trimEnd v).
Proof. intros Hc. cbn [Str.trimEnd]. rewrite Hc. by destruct (Str.trimEnd v). Qed.

Lemma trimEnd_app_nonwhite (s : string) (c : ascii) (v : string) :
  Str.isWhite c = false ->
  Str.trimEnd (s ++ String c v)%string = (s ++ String c (Str.trimEnd v))%string.
Proof.
  intros Hc. induction s as [|a s IH].
  - by apply trimEnd_cons_nonwhite.
  - rewrite !string_app_cons. cbn [Str.trimEnd]. rewrite IH.
    destruct (s ++ String c (Str.trimEnd v))%string eqn:E; [|reflexivity].
    destruct s; discriminate.
Qed.

Lemma trimStart_idempotent (s : string) : Str.trimStart (Str.trimStart s) = Str.trimStart s.
Proof.
  induction s as [|a s IH]; [reflexivity|].
  cbn [Str.trimStart]. destruct (Str.isWhite a) eqn:E; [exact IH|].
  cbn [Str.trimStart]. by rewrite E.
Qed.

Lemma trimEnd_cons (c : ascii) (s : string) :
  Str.trimEnd (String c s)
  = match Str.trimEnd s with
    | "" => if Str.isWhite c then "" else String c ""
    | t => String c t
    end.
Proof. reflexivity. Qed.

Lemma trimEnd_idempotent (s : string) : Str.trimEnd (Str.trimEnd s) = Str.trimEnd s.
Proof.
  induction s as [|a s IH]; [reflexivity|].
  rewrite trimEnd_cons. destruct (Str.trimEnd s) as [|b t] eqn:E.
  - destruct (Str.isWhite a) eqn:Ea; [reflexivity|].
    rewrite trimEnd_cons. cbn [Str.trimEnd]. by rewrite Ea.
  - rewrite trimEnd_cons, IH. reflexivity.
Qed.

Lemma trim_commute (s : string) :
  Str.trimStart (Str.trimEnd s) = Str.trimEnd (Str.trimStart s).
Proof.
  induction s as [|a s IH]; [reflexivity|].
  destruct (Str.isWhite a) eqn:Ea.
  - rewrite trimEnd_cons. cbn [Str.trimStart]. rewrite Ea.
    destruct (Str.trimEnd s) as [|b t] eqn:E.
    + by rewrite <- IH.
    + cbn [Str.trimStart]. by rewrite Ea, <- IH.
  - rewrite (trimEnd_cons_nonwhite _ _ Ea). cbn [Str.trimStart]. rewrite Ea.
    by rewrite (trimEnd_cons_nonwhite _ _ Ea).
Qed.

Lemma trim_idempotent (s : string) : Str.trim (Str.trim s) = Str.trim s.
Proof.
  unfold Str.trim. by rewrite trim_commute, trimStart_idempotent, trimEnd_idempotent.
Qed.

Lemma noEquals_trimStart (k : string) : noEquals k -> noEquals (Str.trimStart k).
Proof.
  induction k as [|a k IH]; [done|].
  intros H. cbn [Str.trimStart]. destruct (Str.isWhite a); [|exact H].
  apply noEquals_cons in H as [_ H]. by apply IH.
Qed.

Lemma endsWithChar_snoc (c : ascii) (s : string) :
  Env.endsWithChar c (s ++ String c "")%string = true.
Proof.
  induction s as [|a s IH].
  - cbn. apply Ascii.eqb_refl.
  - rewrite string_app_cons. cbn [Env.endsWithChar].
    destruct (s ++ String c "")%string eqn:E; [|exact IH]. destruct s; discriminate.
Qed.

(** X15. What a line of the env file stands for. A line [k=v], with no equals
    sign in [k], stands for the trimmed [k] and the trimmed [v], the value
    without its quotes when it is wrapped in a pair of double or of single
    quotes; white space around the key, around the equals sign and at both
    ends of the line does not count; the line is passed over when its first
    character that is no white space is [#]. A value in quotes keeps what is
    between the quotes as it is, white space included. Blank lines and lines
    without an equals sign are passed over. *)
Theorem parseLine_key_value (k v : string) :
  noEquals k ->
  Env.parseLine (headerToken k v)
  = (if Env.startsWithChar "#" (Str.trimStart k) then None
     else Some (Str.trim k, Env.unquote (Str.trim v)))
  /\ (forall inner, Env.unquote (String Env.dquote (inner ++ String Env.dquote ""))%string = inner
                    /\ Env.unquote (String "'" (inner ++ "'"))%string = inner)
  /\ (forall line, Str.trim line = "" \/ noEquals (Str.trim line) ->
        Env.parseLine line = None).
Proof.
  intros Hk. split; [|split].
  - unfold Env.parseLine, headerToken. cbv zeta.
    unfold Str.trim.
    rewrite (trimStart_app_nonwhite k "=" v eq_refl),
      (trimEnd_app_nonwhite (Str.trimStart k) "=" v eq_refl).
    fold (headerToken (Str.trimStart k) (Str.trimEnd v)).
    rewrite (indexOf_headerToken _ _ (noEquals_trimStart _ Hk)),
      sliceTo_headerToken, sliceFrom_headerToken.
    rewrite trimStart_idempotent, trim_commute, trimEnd_idempotent.
    assert (String.eqb (headerToken (Str.trimStart k) (Str.trimEnd v)) "" = false) as ->.
    { apply String.eqb_neq. unfold headerToken. by destruct (Str.trimStart k). }
    assert (Env.startsWithChar "#" (headerToken (Str.trimStart k) (Str.trimEnd v))
            = Env.startsWithChar "#" (Str.trimStart k)) as ->.
    { unfold headerToken. by destruct (Str.trimStart k). }
    cbn [orb]. by destruct (Env.startsWithChar "#" (Str.trimStart k)).
  - intros inner. split.
    + unfold Env.unquote. cbn [Env.startsWithChar]. rewrite Ascii.eqb_refl.
      rewrite <- string_app_cons, endsWithChar_snoc. cbn [andb orb].
      rewrite string_app_cons. cbn [Str.sliceFrom]. apply dropLast_app.
    + unfold Env.unquote. cbn [Env.startsWithChar]. rewrite Ascii.eqb_refl.
      rewrite <- string_app_cons, endsWithChar_snoc. cbn [andb].
      rewrite orb_true_r. rewrite string_app_cons. cbn [Str.sliceFrom]. apply dropLast_app.
  - intros line [H|H]; unfold Env.parseLine; cbv zeta.
    + by rewrite H.
    + destruct (_ || _); [reflexivity|]. by rewrite (indexOf_noEquals _ H).
Qed.

Lemma parseLine_key_value_witness :
  Env.parseLine "  CX_SCOPES =  'a  b' " = Some ("CX_SCOPES", "a  b").
Proof.
  refine (eq_trans (proj1 (parseLine_key_value "  CX_SCOPES " "  'a  b' " _)) _).
  - apply (bool_decide_unpack _). exact I.
  - vm_compute. reflexivity.
Defined.

Lemma requiredEnv_provided (name : string) (env : gmap string string) :
  requiredEnv name env
  = if provided env name then Returned (default "" (env !! name))
    else Thrown (Error ("Missing required environment variable: " ++ name)%string).
Proof.
  unfold requiredEnv, provided. by destruct (env !! name) as [[|a v]|].
Qed.

(** X16. [fromEnv]. The env file is read only when a non-empty path is given,
    and when it cannot be read the call fails with that error and the
    environment is untouched. Otherwise the four required variables are
    looked up in the environment the file was loaded into: the first of
    [CX_AUTH_ENDPOINT], [CX_CLIENT_ID], [CX_CLIENT_SECRET],
    [CX_APPLICATION_ID] that is unset or empty is the one the error names;
    with all four set, the client has their values, the scope string of
    [CX_SCOPES] when it is set, and as base URL [CX_BASE_URL], or the Carerix
    default when it is unset or empty, with one trailing slash taken off. *)
Theorem fromEnv_configuration (fs : FileSystem) (path : option string)
    (env : gmap string string) :
  let env' := snd (fromEnv fs path env) in
  (path = None \/ path = Some "" -> env' = env)
  /\ (forall p message, path = Some p -> p ≠ "" -> fs p = inl message ->
        fromEnv fs path env
        = (Thrown (Error ("Failed to load env file at " ++ p ++ ": " ++ message)%string), env))
  /\ (forall p raw, path = Some p -> p ≠ "" -> fs p = inr raw ->
        env' = Env.loadLines (Env.splitLines raw) env)
  /\ ((path = None \/ path = Some "" \/ exists p raw, path = Some p /\ fs p = inr raw) ->
      (forall before name after,
         requiredNames = before ++ name :: after ->
         Forall (fun n => provided env' n = true) before ->
         provided env' name = false ->
         fst (fromEnv fs path env)
         = Thrown (Error ("Missing required environment variable: " ++ name)%string))
      /\ (Forall (fun n => provided env' n = true) requiredNames ->
          fst (fromEnv fs path env)
          = Returned
              {| this_baseUrl :=
                   stripTrailingSlash
                     (if provided env' "CX_BASE_URL"
                      then default "" (env' !! "CX_BASE_URL") else defaultBaseUrl);
                 this_applicationId := default "" (env' !! "CX_APPLICATION_ID");
                 this_oauth :=
                   {| authEndpoint := default "" (env' !! "CX_AUTH_ENDPOINT");
                      clientID := default "" (env' !! "CX_CLIENT_ID");
                      clientSecret := default "" (env' !! "CX_CLIENT_SECRET");
                      scopes := env' !! "CX_SCOPES" |} |})).
Proof.
  intros env'.
  assert (forall e : gmap string string,
            (match requiredEnv "CX_AUTH_ENDPOINT" e with
             | Thrown x => Thrown x
             | Returned authEndpoint =>
             match requiredEnv "CX_CLIENT_ID" e with
             | Thrown x => Thrown x
             | Returned clientID =>
             match requiredEnv "CX_CLIENT_SECRET" e with
             | Thrown x => Thrown x
             | Returned clientSecret =>
             match requiredEnv "CX_APPLICATION_ID" e with
             | Thrown x => Thrown x
             | Returned applicationId =>
                 Returned (new_client
                   {| baseUrl := match e !! "CX_BASE_URL" with
                                 | Some (String a u) => String a u
                                 | _ => defaultBaseUrl
                                 end;
                      applicationId := applicationId;
                      oauth := {| authEndpoint := authEndpoint; clientID := clientID;
                                  clientSecret := clientSecret;
                                  scopes := e !! "CX_SCOPES" |} |})
             end end end end : outcome Client) = fst (fromEnv fs (Some "") e)) as Hbody.
  { reflexivity. }
  assert (forall e : gmap string string,
            (forall before name after,
               requiredNames = before ++ name :: after ->
               Forall (fun n => provided e n = true) before ->
               provided e name = false ->
               fst (fromEnv fs (Some "") e)
               = Thrown (Error ("Missing required environment variable: " ++ name)%string))
            /\ (Forall (fun n => provided e n = true) requiredNames ->
                fst (fromEnv fs (Some "") e)
                = Returned
                    {| this_baseUrl :=
                         stripTrailingSlash
                           (if provided e "CX_BASE_URL"
                            then default "" (e !! "CX_BASE_URL") else defaultBaseUrl);
                       this_applicationId := default "" (e !! "CX_APPLICATION_ID");
                       this_oauth :=
                         {| authEndpoint := default "" (e !! "CX_AUTH_ENDPOINT");
                            clientID := default "" (e !! "CX_CLIENT_ID");
                            clientSecret := default "" (e !! "CX_CLIENT_SECRET");
                            scopes := e !! "CX_SCOPES" |} |})) as Hreq.
  { intros e. rewrite <- Hbody. rewrite !requiredEnv_provided. split.
    - intros before name after Hnames Hbefore Hname.
      unfold requiredNames in Hnames.
      destruct before as [|b1 before]; simplify_eq/=; [by rewrite Hname|].
      apply Forall_cons in Hbefore as [-> Hbefore].
      destruct before as [|b2 before]; simplify_eq/=; [by rewrite Hname|].
      apply Forall_cons in Hbefore as [-> Hbefore].
      destruct before as [|b3 before]; simplify_eq/=; [by rewrite Hname|].
      apply Forall_cons in Hbefore as [-> Hbefore].
      destruct before as [|b4 before]; simplify_eq/=; [by rewrite Hname|].
      by destruct before.
    - unfold requiredNames. intros Hall.
      apply Forall_cons in Hall as [-> Hall]. apply Forall_cons in Hall as [-> Hall].
      apply Forall_cons in Hall as [-> Hall]. apply Forall_cons in Hall as [-> _].
      unfold new_client, provided. cbn [baseUrl applicationId oauth].
      by destruct (e !! "CX_BASE_URL") as [[|a u]|]. }
  assert (forall e, fromEnv fs (Some "") e = (fst (fromEnv fs (Some "") e), e)) as Hpair.
  { reflexivity. }
  split; [|split; [|split]].
  - subst env'. by intros [-> | ->].
  - intros p message -> Hp Hfs. destruct p as [|a p]; [done|].
    unfold fromEnv, loadEnvFile. by rewrite Hfs.
  - subst env'. intros p raw -> Hp Hfs. destruct p as [|a p]; [done|].
    unfold fromEnv, loadEnvFile. by rewrite Hfs.
  - intros Hload.
    assert (fromEnv fs path env = fromEnv fs (Some "") env') as Heq.
    { subst env'. destruct Hload as [-> | [-> | (p & raw & -> & Hfs)]]; try reflexivity.
      destruct p as [|a p]; [reflexivity|].
      unfold fromEnv at 1 3, loadEnvFile. rewrite Hfs. reflexivity. }
    rewrite Heq. apply Hreq.
Qed.

(** * Properties of the command runner *)

Lemma parseArgs_usage (node script : string) (args : list string) :
  args = [] \/ "--help" ∈ args \/ "-h" ∈ args ->
  parseArgs (node :: script :: args) = usage.
Proof.
  intros H. unfold parseArgs.
  change (drop 2 (node :: script :: args)) with args. cbv zeta.
  destruct H as [-> | [H | H]]; [reflexivity | |];
    by rewrite (includes_true _ _ H), orb_true_r.
Qed.

(** X17. Without a command there is no run: when the argument list is empty,
    or holds [--help] or [-h] anywhere, or when the command name is the empty
    string, [main] prints the usage text once and sets the exit code to 1;
    it reads no env file, leaves the environment as it is, sends no request
    and reports no error. *)
Theorem main_without_command nts (fs : FileSystem) (argv : list string) (p : Process) :
  (exists node script args, argv = node :: script :: args
      /\ (args = [] \/ "--help" ∈ args \/ "-h" ∈ args))
  \/ command (parseArgs argv) = None
  \/ command (parseArgs argv) = Some "" ->
  main nts fs argv p
  = {| world := {| pending := pending (world p);
                   sent := sent (world p);
                   console := console (world p) ++ [VStr usageText] |};
       environ := environ p;
       stderr := stderr p;
       exitCode := Some 1%N |}.
Proof.
  intros H.
  assert (command (parseArgs argv) = None \/ command (parseArgs argv) = Some "") as Hc.
  { destruct H as [(node & script & args & -> & Hargs) | [H | H]]; [left | by left | by right].
    by rewrite (parseArgs_usage node script args Hargs). }
  unfold main. cbv zeta. by destruct Hc as [-> | ->].
Qed.

Lemma main_without_command_witness :
  exitCode (main printNumber emptyFile ["node"; "cli.js"; "delete"; "wh-1"; "-h"]
              (processOf [tokenResponse; noContent])) = Some 1%N
  /\ sent (world (main printNumber emptyFile ["node"; "cli.js"; "delete"; "wh-1"; "-h"]
                    (processOf [tokenResponse; noContent]))) = [].
Proof.
  assert (exists node script args,
            ["node"; "cli.js"; "delete"; "wh-1"; "-h"] = node :: script :: args
            /\ (args = [] \/ "--help" ∈ args \/ "-h" ∈ args)) as H.
  { exists "node", "cli.js", ["delete"; "wh-1"; "-h"]. split; [reflexivity|].
    right. right. apply (bool_decide_unpack _). exact I. }
  rewrite (main_without_command printNumber emptyFile _ (processOf [tokenResponse; noContent])
             (or_introl H)).
  split; reflexivity.
Defined.

(** The env file [main] loads: the path given with [--env], or [.env]. *)
Lemma main_with_command nts (fs : FileSystem) (argv : list string) (p : Process)
    (cmd : string) :
  command (parseArgs argv) = Some cmd ->
  cmd ≠ "" ->
  main nts fs argv p
  = let envPath := match envFile (parseArgs argv) with
                   | Some (String b t) => String b t
                   | _ => ".env"
                   end in
    match fromEnv fs (Some envPath) (environ p) with
    | (Thrown e, env') => reportFailure e (mkProcess (world p) env' (stderr p) (exitCode p))
    | (Returned client, env') =>
        let p' := mkProcess (world p) env' (stderr p) (exitCode p) in
        match runCommand nts client cmd (parseArgs argv) with
        | None => usageFailure p'
        | Some run =>
            match run p' with
            | (Returned _, p'') => p''
            | (Thrown e, p'') => reportFailure e p''
            end
        end
    end.
Proof.
  intros Hc Hne. unfold main. cbv zeta. rewrite Hc. by destruct cmd.
Qed.

Lemma fromEnv_file (fs : FileSystem) (path raw : string) (env : gmap string string) :
  path ≠ "" -> fs path = inr raw ->
  fromEnv fs (Some path) env = fromEnv fs None (Env.loadLines (Env.splitLines raw) env).
Proof.
  intros Hp Hfs. destruct path as [|a path]; [done|].
  unfold fromEnv at 1, loadEnvFile. rewrite Hfs. reflexivity.
Qed.

Lemma fromEnv_unreadable (fs : FileSystem) (path message : string)
    (env : gmap string string) :
  path ≠ "" -> fs path = inl message ->
  fromEnv fs (Some path) env
  = (Thrown (Error ("Failed to load env file at " ++ path ++ ": " ++ message)%string), env).
Proof.
  intros Hp Hfs. destruct path as [|a path]; [done|].
  unfold fromEnv, loadEnvFile. by rewrite Hfs.
Qed.

Lemma fromEnv_missing (fs : FileSystem) (env : gmap string string)
    (before : list string) (name : string) (after : list string) :
  requiredNames = before ++ name :: after ->
  Forall (fun n => provided env n = true) before ->
  provided env name = false ->
  fromEnv fs None env
  = (Thrown (Error ("Missing required environment variable: " ++ name)%string), env).
Proof.
  intros Hnames Hbefore Hname. unfold fromEnv. f_equal.
  rewrite !requiredEnv_provided. unfold requiredNames in Hnames.
  destruct before as [|b1 before]; simplify_eq/=; [by rewrite Hname|].
  apply Forall_cons in Hbefore as [-> Hbefore].
  destruct before as [|b2 before]; simplify_eq/=; [by rewrite Hname|].
  apply Forall_cons in Hbefore as [-> Hbefore].
  destruct before as [|b3 before]; simplify_eq/=; [by rewrite Hname|].
  apply Forall_cons in Hbefore as [-> Hbefore].
  destruct before as [|b4 before]; simplify_eq/=; [by rewrite Hname|].
  by destruct before.
Qed.

(** X18. A configuration that cannot be built ends the run before anything
    else happens. With a command given, [main] builds the client from the env
    file named by [--env], or [.env] when none (or an empty one) was named.
    When the file cannot be read, the error with the path and the reader's
    message is reported and the environment is untouched; when the file was
    loaded and a required variable is still unset or empty, the first such
    variable is reported. In both cases the exit code is 1, no request is
    sent and nothing is printed, whatever the command and its arguments
    are. *)
Theorem main_configuration_failure nts (fs : FileSystem) (argv : list string) (p : Process)
    (cmd : string) :
  command (parseArgs argv) = Some cmd ->
  cmd ≠ "" ->
  let envPath := match envFile (parseArgs argv) with
                 | Some (String b t) => String b t
                 | _ => ".env"
                 end in
  (forall message, fs envPath = inl message ->
     main nts fs argv p
     = {| world := world p;
          environ := environ p;
          stderr := stderr p ++ [Error ("Failed to load env file at " ++ envPath ++ ": "
                                        ++ message)%string];
          exitCode := Some 1%N |})
  /\ (forall raw before name after, fs envPath = inr raw ->
       let loaded := Env.loadLines (Env.splitLines raw) (environ p) in
       requiredNames = before ++ name :: after ->
       Forall (fun n => provided loaded n = true) before ->
       provided loaded name = false ->
       main nts fs argv p
       = {| world := world p;
            environ := loaded;
            stderr := stderr p ++ [Error ("Missing required environment variable: "
                                          ++ name)%string];
            exitCode := Some 1%N |}).
Proof.
  intros Hc Hne envPath.
  assert (envPath ≠ "") as Hpath.
  { subst envPath. by destruct (envFile (parseArgs argv)) as [[|b t]|]. }
  rewrite (main_with_command nts fs argv p cmd Hc Hne). cbv zeta. fold envPath.
  split.
  - intros message Hfs. by rewrite (fromEnv_unreadable fs envPath message _ Hpath Hfs).
  - intros raw before name after Hfs Hnames Hbefore Hname.
    rewrite (fromEnv_file fs envPath raw _ Hpath Hfs).
    by rewrite (fromEnv_missing fs _ before name after Hnames Hbefore Hname).
Qed.

Lemma main_configuration_failure_witness :
  main printNumber (oneFile "other.env" "") ["node"; "cli.js"; "list"]
    (processOf [tokenResponse; noContent])
  = {| world := worldOf [tokenResponse; noContent];
       environ := demoEnv;
       stderr := [Error "Failed to load env file at .env: ENOENT: no such file or directory"];
       exitCode := Some 1%N |}.
Proof.
  refine (proj1 (main_configuration_failure printNumber (oneFile "other.env" "")
                   ["node"; "cli.js"; "list"] (processOf [tokenResponse; noContent]) "list"
                   _ _) "ENOENT: no such file or directory" _).
  - vm_compute. reflexivity.
  - discriminate.
  - vm_compute. reflexivity.
Defined.

(** X19. Malformed input is rejected before the network is touched. Once the
    configuration is built: [enable], [disable] and [delete] without a first
    parameter (or with an empty one); [create] whose flag [url] is absent or
    holds the empty string; [create] whose flag [url] holds something truthy
    (a non-empty string, or the [true] that a [--url] without a value
    leaves, which passes this test) while the flag [event] holds no
    non-empty sequence of values; and [create] with a truthy [url], events
    and a [header] flag that [parseHeaders] rejects, are each reported with
    their message. The URL is tested before the events, and the events
    before the headers. In every case the exit code is 1, no request is
    sent, not even for a token, and nothing is printed. *)
Theorem main_validation nts (fs : FileSystem) (argv : list string) (p : Process)
    (cmd : string) (client : Client) (env' : gmap string string) :
  command (parseArgs argv) = Some cmd ->
  cmd ≠ "" ->
  fromEnv fs (Some (match envFile (parseArgs argv) with
                    | Some (String b t) => String b t
                    | _ => ".env"
                    end)) (environ p) = (Returned client, env') ->
  let rejected (e : exn) :=
    main nts fs argv p
    = {| world := world p; environ := env'; stderr := stderr p ++ [e];
         exitCode := Some 1%N |} in
  let url := flags (parseArgs argv) !! "url" in
  let events := flags (parseArgs argv) !! "event" in
  (cmd ∈ ["enable"; "disable"; "delete"] ->
   firstParam (parseArgs argv) = None ->
   rejected (Error ("Missing <id>. Usage: cx-webhooks " ++ cmd ++ " <id>")%string))
  /\ (cmd = "create" ->
      from_option flagTruthy false url = false ->
      rejected (Error "Missing --url."))
  /\ (cmd = "create" ->
      from_option flagTruthy false url = true ->
      match events with
      | Some (FArr (_ :: _)) | Some (FStr (String _ _)) => False
      | _ => True
      end ->
      rejected (Error "At least one --event is required."))
  /\ (forall err, cmd = "create" ->
      from_option flagTruthy false url = true ->
      match events with
      | Some (FArr (_ :: _)) | Some (FStr (String _ _)) => True
      | _ => False
      end ->
      parseHeaders (flags (parseArgs argv) !! "header") = Thrown err ->
      rejected err).
Proof.
  intros Hc Hne Hfrom rejected url events. subst rejected.
  rewrite (main_with_command nts fs argv p cmd Hc Hne). cbv zeta. rewrite Hfrom.
  split; [|split; [|split]].
  - intros Hcmd Hid.
    repeat (apply elem_of_cons in Hcmd as [-> | Hcmd];
            [unfold runCommand; cbn [String.eqb Ascii.eqb Bool.eqb]; by rewrite Hid|]).
    by apply elem_of_nil in Hcmd.
  - intros -> Hurl. unfold runCommand. cbn [String.eqb Ascii.eqb Bool.eqb].
    fold url. by rewrite Hurl.
  - intros -> Hurl Hev. unfold runCommand. cbn [String.eqb Ascii.eqb Bool.eqb].
    fold url events. rewrite Hurl. cbn [negb].
    by destruct events as [[b|[|a s]|[|e es]]|].
  - intros err -> Hurl Hev Hparse. unfold runCommand. cbn [String.eqb Ascii.eqb Bool.eqb].
    fold url events. rewrite Hurl. cbn [negb].
    destruct events as [[b|[|a s]|[|e es]]|]; try done; by rewrite Hparse.
Qed.

Lemma main_validation_witness :
  main printNumber emptyFile ["node"; "cli.js"; "create"; "--url"; "https://e/x"]
    (processOf [tokenResponse; noContent])
  = {| world := worldOf [tokenResponse; noContent];
       environ := demoEnv;
       stderr := [Error "At least one --event is required."];
       exitCode := Some 1%N |}.
Proof.
  refine (proj1 (proj2 (proj2
    (main_validation printNumber emptyFile ["node"; "cli.js"; "create"; "--url"; "https://e/x"]
       (processOf [tokenResponse; noContent]) "create" envClient demoEnv _ _ _)))
    eq_refl _ _).
  - vm_compute. reflexivity.
  - discriminate.
  - vm_compute. reflexivity.
  - vm_compute. reflexivity.
  - vm_compute. exact I.
Defined.

(** X20. A command that is none of [list], [enable], [disable], [delete] and
    [create] makes [main] print the usage text and set the exit code to 1,
    without a request and without an error message; the env file was loaded
    all the same, since the configuration is built before the command is
    looked at. *)
Theorem main_unknown_command nts (fs : FileSystem) (argv : list string) (p : Process)
    (cmd : string) (client : Client) (env' : gmap string string) :
  command (parseArgs argv) = Some cmd ->
  cmd ≠ "" ->
  cmd ∉ commands ->
  fromEnv fs (Some (match envFile (parseArgs argv) with
                    | Some (String b t) => String b t
                    | _ => ".env"
                    end)) (environ p) = (Returned client, env') ->
  main nts fs argv p
  = {| world := {| pending := pending (world p);
                   sent := sent (world p);
                   console := console (world p) ++ [VStr usageText] |};
       environ := env';
       stderr := stderr p;
       exitCode := Some 1%N |}.
Proof.
  intros Hc Hne Hcmd Hfrom.
  rewrite (main_with_command nts fs argv p cmd Hc Hne). cbv zeta. rewrite Hfrom.
  unfold commands in Hcmd.
  repeat (apply not_elem_of_cons in Hcmd as [?%String.eqb_neq Hcmd]).
  unfold runCommand. by repeat match goal with H : String.eqb cmd _ = false |- _ =>
                                 rewrite H; clear H end.
Qed.

Lemma main_unknown_command_witness :
  environ (main printNumber (oneFile ".env" "EXTRA=1") ["node"; "cli.js"; "remove"; "wh-1"]
             (processOf [tokenResponse; noContent]))
  = <["EXTRA" := "1"]> demoEnv
  /\ exitCode (main printNumber (oneFile ".env" "EXTRA=1") ["node"; "cli.js"; "remove"; "wh-1"]
                 (processOf [tokenResponse; noContent])) = Some 1%N.
Proof.
  assert ("remove" ∉ commands) as Hcmd.
  { apply (bool_decide_unpack _). exact I. }
  rewrite (main_unknown_command printNumber (oneFile ".env" "EXTRA=1")
             ["node"; "cli.js"; "remove"; "wh-1"] (processOf [tokenResponse; noContent])
             "remove" envClient (<["EXTRA" := "1"]> demoEnv) eq_refl
             (fun H : "remove" = "" => eq_ind "remove"
                (fun s => match s with "" => False | _ => True end) I _ H)
             Hcmd eq_refl).
  split; reflexivity.
Defined.

Lemma deleteWebhook_run nts c w tokRes res rest (token : string) id :
  pending w = tokRes :: res :: rest ->
  grants tokRes (VStr token) ->
  deleteWebhook nts c id w
  = (if ok res then Returned tt
     else Thrown (Error (failureMessage "Delete webhook" res (default "" (text res)))),
     afterOperation c w (res :: rest) (VStr token)
       {| url := appUrl c ("/webhooks/" ++ encodeURIComponent id)%string;
          method := "DELETE"; headers := authorization token; body := None |}).
Proof.
  intros Hp Hg. unfold deleteWebhook.
  rewrite (operation_run nts c w tokRes (res :: rest) (VStr token) Hp Hg token eq_refl).
  unfold afterOperation, authorized, authorization. cbn [sent console tail].
  rewrite <- app_assoc. by destruct (ok res).
Qed.

(** X21. The [delete] command from end to end, with the configuration built
    and the token granted as a string. On a 2xx answer the token and then
    [Deleted webhook <id>] are printed and the exit code is left alone; on
    any other answer the token is printed, the error of the request is
    reported and the exit code is 1. Either way exactly two requests were
    sent: the token request and the DELETE of the percent-encoded
    identifier. *)
Theorem main_delete nts (fs : FileSystem) (argv : list string) (p : Process)
    (client : Client) (env' : gmap string string) (id token : string)
    (tokRes res : Response) (rest : list Response) :
  command (parseArgs argv) = Some "delete" ->
  firstParam (parseArgs argv) = Some id ->
  fromEnv fs (Some (match envFile (parseArgs argv) with
                    | Some (String b t) => String b t
                    | _ => ".env"
                    end)) (environ p) = (Returned client, env') ->
  pending (world p) = tokRes :: res :: rest ->
  grants tokRes (VStr token) ->
  let requests :=
    sent (world p)
    ++ [tokenRequest client;
        {| url := appUrl client ("/webhooks/" ++ encodeURIComponent id)%string;
           method := "DELETE";
           headers := [("Authorization", ("Bearer " ++ token)%string)];
           body := None |}] in
  main nts fs argv p
  = if ok res then
      {| world := {| pending := rest; sent := requests;
                     console := console (world p)
                                ++ [VStr token; VStr ("Deleted webhook " ++ id)%string] |};
         environ := env'; stderr := stderr p; exitCode := exitCode p |}
    else
      {| world := {| pending := rest; sent := requests;
                     console := console (world p) ++ [VStr token] |};
         environ := env';
         stderr := stderr p
                   ++ [Error ("Delete webhook failed: " ++ Str.ofN (status res) ++ " "
                              ++ statusText res ++ " " ++ default "" (text res))%string];
         exitCode := Some 1%N |}.
Proof.
  intros Hc Hid Hfrom Hp Hg requests.
  rewrite (main_with_command nts fs argv p "delete" Hc) by discriminate.
  cbv zeta. rewrite Hfrom.
  unfold runCommand. cbn [String.eqb Ascii.eqb Bool.eqb]. rewrite Hid.
  unfold mbind, P_bind, call. cbn [world].
  rewrite (deleteWebhook_run nts client (world p) tokRes res rest token id Hp Hg).
  unfold afterOperation, authorization, requests. cbn [tail].
  destruct (ok res).
  - unfold print. cbn [world pending sent console environ stderr exitCode].
    by rewrite <- app_assoc.
  - reflexivity.
Qed.

Lemma main_delete_witness :
  main printNumber emptyFile ["node"; "cli.js"; "delete"; "a/b"]
    (processOf [tokenResponse; noContent])
  = {| world := {| pending := [];
                   sent := [tokenRequest envClient;
                            {| url := "https://api.carerix.io/webhooks/v1/applications/app-1/webhooks/a%2Fb";
                               method := "DELETE";
                               headers := [("Authorization", "Bearer tok-1")];
                               body := None |}];
                   console := [VStr "tok-1"; VStr "Deleted webhook a/b"] |};
       environ := demoEnv; stderr := []; exitCode := None |}.
Proof.
  exact (main_delete printNumber emptyFile ["node"; "cli.js"; "delete"; "a/b"]
           (processOf [tokenResponse; noContent]) envClient demoEnv "a/b" "tok-1"
           tokenResponse noContent [] eq_refl eq_refl eq_refl eq_refl tokenResponse_grants).
Defined.

Lemma enableWebhook_run nts c w tokRes res rest (token : string) id data :
  pending w = tokRes :: res :: rest ->
  grants tokRes (VStr token) ->
  ok res = true ->
  json res = Some data ->
  enableWebhook nts c id w
  = (Returned (normalizeWebhook data),
     afterOperation c w (res :: rest) (VStr token)
       {| url := appUrl c ("/webhooks/" ++ encodeURIComponent id ++ "/enable")%string;
          method := "POST"; headers := authorization token; body := None |}).
Proof.
  intros Hp Hg Hok Hj. unfold enableWebhook.
  rewrite (operation_run nts c w tokRes (res :: rest) (VStr token) Hp Hg token eq_refl), Hok.
  cbn [negb]. unfold parseJson. rewrite Hj.
  unfold afterOperation, authorized, authorization. cbn [sent console tail].
  by rewrite <- app_assoc.
Qed.

Lemma disableWebhook_run nts c w tokRes res rest (token : string) id data :
  pending w = tokRes :: res :: rest ->
  grants tokRes (VStr token) ->
  ok res = true ->
  json res = Some data ->
  disableWebhook nts c id w
  = (Returned (normalizeWebhook data),
     afterOperation c w (res :: rest) (VStr token)
       {| url := appUrl c ("/webhooks/" ++ encodeURIComponent id ++ "/disable")%string;
          method := "POST"; headers := authorization token; body := None |}).
Proof.
  intros Hp Hg Hok Hj. unfold disableWebhook.
  rewrite (operation_run nts c w tokRes (res :: rest) (VStr token) Hp Hg token eq_refl), Hok.
  cbn [negb]. unfold parseJson. rewrite Hj.
  unfold afterOperation, authorized, authorization. cbn [sent console tail].
  by rewrite <- app_assoc.
Qed.

(** X22. What [enable] and [disable] print. With the configuration built, the
    token granted as a string and a 2xx answer whose body is the JSON object
    [m], [main] prints the token and then [Enabled webhook] (or [Disabled
    webhook]) followed by the identifier normalization resolves for [m]: the
    object's own [id], else the first populated one of [_id] and
    [webhookId], else [uuid], and the word [undefined] when the answer has
    none of them. The exit code is left alone. When that identifier cannot
    be turned into a string, a [TypeError] is reported instead, after the
    request was made. *)
Theorem main_switch_prints_id nts (fs : FileSystem) (argv : list string) (p : Process)
    (client : Client) (env' : gmap string string) (cmd word suffix id token : string)
    (tokRes res : Response) (rest : list Response) (m : gmap string value) :
  (cmd, (word, suffix)) ∈ switches ->
  command (parseArgs argv) = Some cmd ->
  firstParam (parseArgs argv) = Some id ->
  fromEnv fs (Some (match envFile (parseArgs argv) with
                    | Some (String b t) => String b t
                    | _ => ".env"
                    end)) (environ p) = (Returned client, env') ->
  pending (world p) = tokRes :: res :: rest ->
  grants tokRes (VStr token) ->
  ok res = true ->
  json res = Some (VObj m) ->
  let requests :=
    sent (world p)
    ++ [tokenRequest client;
        {| url := appUrl client ("/webhooks/" ++ encodeURIComponent id ++ suffix)%string;
           method := "POST";
           headers := [("Authorization", ("Bearer " ++ token)%string)];
           body := None |}] in
  main nts fs argv p
  = match toStringThrowing nts (resolved_id m) with
    | Some shown =>
        {| world := {| pending := rest; sent := requests;
                       console := console (world p)
                                  ++ [VStr token; VStr (word ++ " webhook " ++ shown)%string] |};
           environ := env'; stderr := stderr p; exitCode := exitCode p |}
    | None =>
        {| world := {| pending := rest; sent := requests;
                       console := console (world p) ++ [VStr token] |};
           environ := env'; stderr := stderr p ++ [TypeError]; exitCode := Some 1%N |}
    end.
Proof.
  intros Hsw Hc Hid Hfrom Hp Hg Hok Hj requests.
  assert (cmd ≠ "") as Hne.
  { unfold switches in Hsw.
    repeat (apply elem_of_cons in Hsw as [[= -> -> ->] | Hsw]; [discriminate|]).
    by apply elem_of_nil in Hsw. }
  rewrite (main_with_command nts fs argv p cmd Hc Hne). cbv zeta. rewrite Hfrom.
  unfold switches in Hsw.
  apply elem_of_cons in Hsw as [[= -> -> ->] | Hsw];
    [|apply elem_of_cons in Hsw as [[= -> -> ->] | Hsw]; [|by apply elem_of_nil in Hsw]].
  - unfold runCommand. cbn [String.eqb Ascii.eqb Bool.eqb]. rewrite Hid.
    unfold mbind, P_bind, call. cbn [world].
    rewrite (enableWebhook_run nts client (world p) tokRes res rest token id _
               Hp Hg Hok Hj).
    rewrite (normalizeWebhook_lookup_id m).
    change (default VUndef (Some (resolved_id m))) with (resolved_id m).
    unfold template, afterOperation, authorization, requests. cbn [tail].
    destruct (toStringThrowing nts (resolved_id m)) as [shown|].
    + unfold mret, P_ret, print.
      cbn [world pending sent console environ stderr exitCode].
      by rewrite <- app_assoc.
    + reflexivity.
  - unfold runCommand. cbn [String.eqb Ascii.eqb Bool.eqb]. rewrite Hid.
    unfold mbind, P_bind, call. cbn [world].
    rewrite (disableWebhook_run nts client (world p) tokRes res rest token id _
               Hp Hg Hok Hj).
    rewrite (normalizeWebhook_lookup_id m).
    change (default VUndef (Some (resolved_id m))) with (resolved_id m).
    unfold template, afterOperation, authorization, requests. cbn [tail].
    destruct (toStringThrowing nts (resolved_id m)) as [shown|].
    + unfold mret, P_ret, print.
      cbn [world pending sent console environ stderr exitCode].
      by rewrite <- app_assoc.
    + reflexivity.
Qed.

Lemma main_switch_prints_id_witness :
  console (world (main printNumber emptyFile ["node"; "cli.js"; "enable"; "wh-1"]
                    (processOf [tokenResponse; okBody (VObj obj_null_fallback)])))
  = [VStr "tok-1"; VStr "Enabled webhook u-1"].
Proof.
  assert (("enable", ("Enabled", "/enable")) ∈ switches) as Hsw.
  { apply (bool_decide_unpack _). exact I. }
  rewrite (main_switch_prints_id printNumber emptyFile ["node"; "cli.js"; "enable"; "wh-1"]
             (processOf [tokenResponse; okBody (VObj obj_null_fallback)])
             envClient demoEnv "enable" "Enabled" "/enable" "wh-1" "tok-1"
             tokenResponse (okBody (VObj obj_null_fallback)) [] obj_null_fallback
             Hsw eq_refl eq_refl eq_refl eq_refl tokenResponse_grants eq_refl eq_refl).
  reflexivity.
Defined.

Lemma listWebhooks_run nts c w tokRes res rest (token : string) data :
  pending w = tokRes :: res :: rest ->
  grants tokRes (VStr token) ->
  ok res = true ->
  json res = Some data ->
  listWebhooks nts c w
  = (Returned (normalizeWebhook <$> listItems data),
     afterOperation c w (res :: rest) (VStr token)
       {| url := appUrl c "/webhooks"; method := "GET";
          headers := authorization token; body := None |}).
Proof.
  intros Hp Hg Hok Hj. unfold listWebhooks.
  rewrite (operation_run nts c w tokRes (res :: rest) (VStr token) Hp Hg token eq_refl), Hok.
  cbn [negb]. unfold parseJson. rewrite Hj.
  unfold afterOperation, authorized, authorization. cbn [sent console tail].
  by rewrite <- app_assoc.
Qed.

Lemma call_listWebhooks {A : Type} nts c (p : Process) tokRes res rest (token : string) data
    (k : list (gmap string value) -> P A) :
  pending (world p) = tokRes :: res :: rest ->
  grants tokRes (VStr token) ->
  ok res = true ->
  json res = Some data ->
  (call (listWebhooks nts c) ≫= k) p
  = k (normalizeWebhook <$> listItems data)
      (mkProcess
         (afterOperation c (world p) (res :: rest) (VStr token)
            {| url := appUrl c "/webhooks"; method := "GET";
               headers := authorization token; body := None |})
         (environ p) (stderr p) (exitCode p)).
Proof.
  intros Hp Hg Hok Hj. unfold mbind, P_bind, call.
  by rewrite (listWebhooks_run nts c (world p) tokRes res rest token data Hp Hg Hok Hj).
Qed.

Lemma eventTypes_listed (events : list string) :
  mapM (fun f => if nullish f then None else Some (get f "eventType"))
       ((fun t => VObj {[ "eventType" := VStr t ]}) <$> events)
  = Some (VStr <$> events).
Proof.
  induction events as [|t events IH]; [reflexivity|].
  cbn [fmap list_fmap mapM nullish]. fold (@fmap list _ _ _ (fun t => VObj {[ "eventType" := VStr t ]}) events).
  rewrite IH. cbn. by rewrite lookup_singleton_eq.
Qed.

Lemma eventNames_listed nts (events : list string) :
  mapM (fun e => if nullish e then Some "" else toStringThrowing nts e) (VStr <$> events)
  = Some events.
Proof.
  induction events as [|t events IH]; [reflexivity|].
  cbn [fmap list_fmap mapM nullish toStringThrowing].
  fold (@fmap list _ _ _ VStr events). by rewrite IH.
Qed.

Lemma printWebhook_listed nts (x : Listed) (p : Process) :
  printWebhook nts (normalizeWebhook (listedValue x)) p
  = print (listedLine x) p.
Proof.
  unfold listedValue. set (m := match listed_enabled x with Some _ => _ | None => _ end).
  assert (m !! "id" = Some (VStr (listed_id x))) as Hid.
  { subst m. destruct (listed_enabled x); by simplify_map_eq. }
  assert (m !! "url" = Some (VStr (listed_url x))) as Hurl.
  { subst m. destruct (listed_enabled x); by simplify_map_eq. }
  assert (m !! "filters"
          = Some (VArr ((fun t => VObj {[ "eventType" := VStr t ]}) <$> listed_events x)))
    as Hfilters.
  { subst m. destruct (listed_enabled x); by simplify_map_eq. }
  assert (m !! "enabled" = VBool <$> listed_enabled x) as Hen.
  { subst m. destruct (listed_enabled x); by simplify_map_eq. }
  unfold printWebhook, eventsOf.
  rewrite (normalizeWebhook_lookup_id m).
  rewrite !(normalizeWebhook_lookup_other m) by done.
  unfold resolved_id. rewrite Hid, Hurl, Hfilters, Hen.
  cbn [default from_option]. unfold Datatypes.id. cbn [truthy].
  rewrite eventTypes_listed, eventNames_listed.
  unfold listedLine. by destruct (listed_enabled x) as [[]|].
Qed.

Lemma printWebhooks_listed nts (xs : list Listed) (p : Process) :
  printWebhooks nts (normalizeWebhook <$> (listedValue <$> xs)) p
  = (Returned tt,
     mkProcess (mkWorld (pending (world p)) (sent (world p))
                        (console (world p) ++ ((fun x => VStr (listedLine x)) <$> xs)))
               (environ p) (stderr p) (exitCode p)).
Proof.
  revert p. induction xs as [|x xs IH]; intros p.
  - cbn. rewrite app_nil_r. by destruct p as [[] ? ? ?].
  - cbn [fmap list_fmap printWebhooks].
    fold (@fmap list _ _ _ listedValue xs).
    fold (@fmap list _ _ _ normalizeWebhook (listedValue <$> xs)).
    unfold mbind, P_bind. rewrite printWebhook_listed. unfold print at 1.
    rewrite IH. cbn [world pending sent console environ stderr exitCode].
    by rewrite <- app_assoc.
Qed.

(** X23. What [list] prints. With the configuration built, the token granted
    as a string and a 2xx answer with a JSON body: when the body holds no
    webhook (an empty array, an empty [items], [null]) [main] prints [No
    webhooks found.]; when it is an array of webhooks with a string [id], a
    string [url], an optional boolean [enabled] and [filters] with string
    event types, [main] prints one line for each, in the order of the array:
    the identifier, [enabled] or [disabled] (nothing when the field is
    absent), the URL and the event types separated by commas, in brackets.
    In both cases the token is printed first and the exit code is left
    alone. A webhook whose [filters] is something truthy that is no array
    ends the run with a [TypeError]. *)
Theorem main_list nts (fs : FileSystem) (argv : list string) (p : Process)
    (client : Client) (env' : gmap string string) (token : string)
    (tokRes res : Response) (rest : list Response) (data : value) :
  command (parseArgs argv) = Some "list" ->
  fromEnv fs (Some (match envFile (parseArgs argv) with
                    | Some (String b t) => String b t
                    | _ => ".env"
                    end)) (environ p) = (Returned client, env') ->
  pending (world p) = tokRes :: res :: rest ->
  grants tokRes (VStr token) ->
  ok res = true ->
  json res = Some data ->
  let requests :=
    sent (world p)
    ++ [tokenRequest client;
        {| url := appUrl client "/webhooks"; method := "GET";
           headers := [("Authorization", ("Bearer " ++ token)%string)];
           body := None |}] in
  let printed (lines : list string) :=
    main nts fs argv p
    = {| world := {| pending := rest; sent := requests;
                     console := console (world p) ++ VStr token :: (VStr <$> lines) |};
         environ := env'; stderr := stderr p; exitCode := exitCode p |} in
  (listItems data = [] -> printed ["No webhooks found."])
  /\ (forall xs, xs ≠ [] -> data = VArr (listedValue <$> xs) -> printed (listedLine <$> xs))
  /\ (forall m f, data = VArr [VObj m] -> m !! "filters" = Some f ->
        truthy f = true -> isArray f = false ->
        main nts fs argv p
        = {| world := {| pending := rest; sent := requests;
                         console := console (world p) ++ [VStr token] |};
             environ := env'; stderr := stderr p ++ [TypeError]; exitCode := Some 1%N |}).
Proof.
  intros Hc Hfrom Hp Hg Hok Hj requests printed. subst printed.
  rewrite (main_with_command nts fs argv p "list" Hc) by discriminate.
  cbv zeta. rewrite Hfrom.
  unfold runCommand. cbn [String.eqb Ascii.eqb Bool.eqb].
  rewrite (call_listWebhooks nts client (mkProcess (world p) env' (stderr p) (exitCode p))
             tokRes res rest token data _ Hp Hg Hok Hj).
  unfold afterOperation, authorization, requests.
  cbn [tail world environ stderr exitCode].
  split; [|split].
  - intros ->. cbn [fmap list_fmap length Nat.eqb]. unfold print.
    cbn [world pending sent console environ stderr exitCode].
    by rewrite <- app_assoc.
  - intros xs Hxs ->. unfold listItems. cbn [isArray elements].
    rewrite !length_fmap. destruct (length xs) eqn:E.
    { by destruct xs. }
    cbn [Nat.eqb]. rewrite printWebhooks_listed.
    cbn [world pending sent console environ stderr exitCode].
    rewrite <- app_assoc. cbn [app]. by rewrite <- list_fmap_compose.
  - intros m f -> Hf Ht Harr. unfold listItems.
    cbn [isArray elements fmap list_fmap length Nat.eqb].
    cbn [printWebhooks]. unfold mbind, P_bind, printWebhook, eventsOf.
    rewrite (normalizeWebhook_lookup_other m "filters") by done. rewrite Hf.
    change (default VUndef (Some f)) with f. rewrite Ht.
    destruct f; try discriminate; reflexivity.
Qed.

Lemma main_list_witness :
  console (world (main printNumber emptyFile ["node"; "cli.js"; "list"]
                    (processOf [tokenResponse; okBody (VArr (listedValue <$> listing))])))
  = [VStr "tok-1";
     VStr "wh-1  enabled  https://e/x  [a:created, b:updated]";
     VStr "wh-2    https://e/y  []"].
Proof.
  assert (listing ≠ []) as Hne by discriminate.
  pose proof (proj1 (proj2
    (main_list printNumber emptyFile ["node"; "cli.js"; "list"]
       (processOf [tokenResponse; okBody (VArr (listedValue <$> listing))])
       envClient demoEnv "tok-1" tokenResponse (okBody (VArr (listedValue <$> listing))) []
       (VArr (listedValue <$> listing))
       eq_refl eq_refl eq_refl tokenResponse_grants eq_refl eq_refl))
    listing Hne eq_refl) as H.
  rewrite H. reflexivity.
Defined.

(** * A token without a string form *)

Lemma tokenObject_grants : grants tokenObject (VObj {[ "toString" := VNull ]}).
Proof.
  split; [reflexivity|]. eexists. split; [reflexivity|]. split; reflexivity.
Defined.

(** X24. A token the token endpoint granted but that has no string form, such
    as an object with an own [toString] entry, ends each of the five
    operations in [authHeaders]: the token is printed, the template literal
    of the header throws a [TypeError], no request goes to the webhook
    endpoint and its response is not taken. A string always has a string
    form, and an object has one exactly when it has no own [toString]
    entry. *)
Theorem unconvertible_token_throws nts c w tokRes rest token req id :
  pending w = tokRes :: rest ->
  grants tokRes token ->
  toStringThrowing nts token = None ->
  let left_ := {| pending := rest; sent := sent w ++ [tokenRequest c];
                  console := console w ++ [token] |} in
  createWebhook nts c req w = (Thrown TypeError, left_)
  /\ listWebhooks nts c w = (Thrown TypeError, left_)
  /\ enableWebhook nts c id w = (Thrown TypeError, left_)
  /\ disableWebhook nts c id w = (Thrown TypeError, left_)
  /\ deleteWebhook nts c id w = (Thrown TypeError, left_)
  /\ (forall s, toStringThrowing nts (VStr s) = Some s)
  /\ (forall m, toStringThrowing nts (VObj m) = None <-> is_Some (m !! "toString")).
Proof.
  intros Hp Hg Hnone left_.
  repeat match goal with |- _ /\ _ => split end.
  - exact (operation_unconvertible nts c w tokRes rest token Hp Hg _ Hnone).
  - exact (operation_unconvertible nts c w tokRes rest token Hp Hg _ Hnone).
  - exact (operation_unconvertible nts c w tokRes rest token Hp Hg _ Hnone).
  - exact (operation_unconvertible nts c w tokRes rest token Hp Hg _ Hnone).
  - exact (operation_unconvertible nts c w tokRes rest token Hp Hg _ Hnone).
  - reflexivity.
  - intros m. cbn [toStringThrowing]. case_bool_decide as H; [done|].
    split; [discriminate | by intros H'].
Qed.

Lemma unconvertible_token_throws_witness :
  listWebhooks printNumber demoClient (worldOf [tokenObject; okBody (VArr [])])
  = (Thrown TypeError,
     {| pending := [okBody (VArr [])];
        sent := [tokenRequest demoClient];
        console := [VObj {[ "toString" := VNull ]}] |}).
Proof.
  exact (proj1 (proj2
    (unconvertible_token_throws printNumber demoClient
       (worldOf [tokenObject; okBody (VArr [])]) tokenObject [okBody (VArr [])]
       (VObj {[ "toString" := VNull ]}) demoRequest "wh-1"
       eq_refl tokenObject_grants eq_refl))).
Defined.

(** * The [create] command *)

Lemma createWebhookWith_run nts c w tokRes res rest (token : string) urlValue events hs data :
  pending w = tokRes :: res :: rest ->
  grants tokRes (VStr token) ->
  ok res = true ->
  json res = Some data ->
  createWebhookWith nts c urlValue (mkWebhookFilter <$> events) hs w
  = (Returned (normalizeWebhook data),
     afterOperation c w (res :: rest) (VStr token)
       {| url := appUrl c "/webhooks"; method := "POST";
          headers := authorization token ++ [("Content-Type", "application/json")];
          body := Some (BodyJson (VObj (createFields urlValue events hs))) |}).
Proof.
  intros Hp Hg Hok Hj. unfold createWebhookWith.
  rewrite (operation_run nts c w tokRes (res :: rest) (VStr token) Hp Hg token eq_refl), Hok.
  cbn [negb]. unfold parseJson. rewrite Hj.
  unfold afterOperation, authorized, authorization, createFields. cbn [sent console tail].
  rewrite <- app_assoc. cbn [app].
  destruct hs as [l|].
  - rewrite <- insert_union_singleton_r; [reflexivity|].
    rewrite !lookup_insert_ne by done. by apply lookup_singleton_ne.
  - rewrite <- insert_union_singleton_r; [reflexivity|].
    rewrite !lookup_insert_ne by done. by apply lookup_singleton_ne.
Qed.

(** X25. The [create] command from end to end. With the configuration built,
    a flag [url] that holds something truthy (the string given with [--url],
    or the [true] that a [--url] without a value leaves), at least one event,
    headers that [parseHeaders] accepts, the token granted as a string and a
    2xx answer whose body is the JSON object [m]: [main] sends, after the
    token request, one POST to the webhooks path with the bearer token, the
    JSON content type and as body the object of [_kind: "Webhook"], the
    value of the flag [url] as it is (so [true] for a [--url] without a
    value), one filter for each event in order and the headers when there
    are any; it prints the token and then [Created webhook] followed by the
    identifier normalization resolves for [m]; the exit code is left alone.
    When that identifier cannot be turned into a string, a [TypeError] is
    reported instead, after the request was made. *)
Theorem main_create nts (fs : FileSystem) (argv : list string) (p : Process)
    (client : Client) (env' : gmap string string) (token : string)
    (tokRes res : Response) (rest : list Response) (u : FlagValue) (e : string)
    (es : list string) (hs : option (list WebhookHeader)) (m : gmap string value) :
  command (parseArgs argv) = Some "create" ->
  fromEnv fs (Some (match envFile (parseArgs argv) with
                    | Some (String b t) => String b t
                    | _ => ".env"
                    end)) (environ p) = (Returned client, env') ->
  flags (parseArgs argv) !! "url" = Some u ->
  flagTruthy u = true ->
  flags (parseArgs argv) !! "event" = Some (FArr (e :: es)) ->
  parseHeaders (flags (parseArgs argv) !! "header") = Returned hs ->
  pending (world p) = tokRes :: res :: rest ->
  grants tokRes (VStr token) ->
  ok res = true ->
  json res = Some (VObj m) ->
  let requests :=
    sent (world p)
    ++ [tokenRequest client;
        {| url := appUrl client "/webhooks";
           method := "POST";
           headers := [("Authorization", ("Bearer " ++ token)%string);
                       ("Content-Type", "application/json")];
           body := Some (BodyJson (VObj (createFields (flagValue u) (e :: es) hs))) |}] in
  main nts fs argv p
  = match toStringThrowing nts (resolved_id m) with
    | Some shown =>
        {| world := {| pending := rest; sent := requests;
                       console := console (world p)
                                  ++ [VStr token; VStr ("Created webhook " ++ shown)%string] |};
           environ := env'; stderr := stderr p; exitCode := exitCode p |}
    | None =>
        {| world := {| pending := rest; sent := requests;
                       console := console (world p) ++ [VStr token] |};
           environ := env'; stderr := stderr p ++ [TypeError]; exitCode := Some 1%N |}
    end.
Proof.
  intros Hc Hfrom Hurl Htruthy Hev Hparse Hp Hg Hok Hj requests.
  rewrite (main_with_command nts fs argv p "create" Hc) by discriminate.
  cbv zeta. rewrite Hfrom.
  unfold runCommand. cbn [String.eqb Ascii.eqb Bool.eqb].
  rewrite Hurl, Hev, Hparse. cbn [from_option]. rewrite Htruthy. cbn [negb].
  unfold mbind, P_bind, call. cbn [world].
  rewrite (createWebhookWith_run nts client (world p) tokRes res rest token (flagValue u)
             (e :: es) hs _ Hp Hg Hok Hj).
  rewrite (normalizeWebhook_lookup_id m).
  change (default VUndef (Some (resolved_id m))) with (resolved_id m).
  unfold template, afterOperation, authorization, requests. cbn [tail app].
  destruct (toStringThrowing nts (resolved_id m)) as [shown|].
  - unfold mret, P_ret, print.
    cbn [world pending sent console environ stderr exitCode].
    by rewrite <- app_assoc.
  - reflexivity.
Qed.

Lemma main_create_witness :
  main printNumber emptyFile ["node"; "cli.js"; "create"; "-e"; "a:created"; "--url"]
    (processOf [tokenResponse; okBody (VObj obj_null_fallback)])
  = {| world :=
         {| pending := [];
            sent := [tokenRequest envClient;
                     {| url := "https://api.carerix.io/webhooks/v1/applications/app-1/webhooks";
                        method := "POST";
                        headers := [("Authorization", "Bearer tok-1");
                                    ("Content-Type", "application/json")];
                        body := Some (BodyJson (VObj
                          {[ "_kind" := VStr "Webhook";
                             "url" := VBool true;
                             "filters" := VArr [VObj {[ "eventType" := VStr "a:created" ]}] ]})) |}];
            console := [VStr "tok-1"; VStr "Created webhook u-1"] |};
       environ := demoEnv; stderr := []; exitCode := None |}.
Proof.
  rewrite (main_create printNumber emptyFile
             ["node"; "cli.js"; "create"; "-e"; "a:created"; "--url"]
             (processOf [tokenResponse; okBody (VObj obj_null_fallback)])
             envClient demoEnv "tok-1" tokenResponse (okBody (VObj obj_null_fallback)) []
             (FBool true) "a:created" [] None obj_null_fallback
             eq_refl eq_refl eq_refl eq_refl eq_refl eq_refl eq_refl tokenResponse_grants
             eq_refl eq_refl).
  vm_compute. reflexivity.
Defined.
